(** * Verification of scripts/expand-refs.py

    A shallow embedding of the reference expander of the Cribl OpenAPI
    tooling: the JSON-pointer resolver [resolve_ref_pointer], the recursive
    expander [expand_refs] with its depth guard and per-path visited set,
    and (in module [Heap]) the same expander over an explicit object store,
    to talk about mutation and aliasing. *)

From Stdlib Require Import String Ascii List ZArith Lia Bool.
From Stdlib Require Import DecimalString DecimalNat Relation_Operators.
From stdpp Require Import base gmap strings list.
Import ListNotations.

Set Warnings "-register-all".

Local Notation "a +++ b" := (String.append a b) (at level 60, right associativity).

(* ------------------------------------------------------------------ *)
(** ** Document trees *)

(** A parsed JSON/YAML document: Python [None], [bool], [int], [str],
    [list] and [dict].  A dict is an association list in insertion order
    (Python dicts preserve insertion order and have unique keys).  Floats
    play no role in the expander (they are returned as they are) and are
    left out. *)
Inductive json : Type :=
| JNull
| JBool (b : bool)
| JNum (z : Z)
| JStr (s : string)
| JList (xs : list json)
| JObj (kvs : list (string * json)).

(** Induction over documents, with the children of lists and dicts. *)
Section json_ind_nested.
Variable P : json -> Prop.
Hypothesis HNull : P JNull.
Hypothesis HBool : forall b, P (JBool b).
Hypothesis HNum : forall z, P (JNum z).
Hypothesis HStr : forall s, P (JStr s).
Hypothesis HList : forall xs, Forall P xs -> P (JList xs).
Hypothesis HObj : forall kvs, Forall (fun kv => P (snd kv)) kvs -> P (JObj kvs).

Fixpoint json_ind' (j : json) : P j :=
  match j with
  | JNull => HNull
  | JBool b => HBool b
  | JNum z => HNum z
  | JStr s => HStr s
  | JList xs =>
      HList xs ((fix go (l : list json) : Forall P l :=
                   match l with
                   | [] => List.Forall_nil _
                   | x :: r => List.Forall_cons _ _ _ (json_ind' x) (go r)
                   end) xs)
  | JObj kvs =>
      HObj kvs ((fix go (l : list (string * json)) : Forall (fun kv => P (snd kv)) l :=
                   match l with
                   | [] => List.Forall_nil _
                   | kv :: r => List.Forall_cons _ _ _ (json_ind' (snd kv)) (go r)
                   end) kvs)
  end.
End json_ind_nested.

(** [k in d] *)
Definition dict_has {V : Type} (k : string) (kvs : list (string * V)) : bool :=
  existsb (fun kv => String.eqb (fst kv) k) kvs.

(** [d[k]], [None] for a missing key (Python raises [KeyError]). *)
Fixpoint dict_get {V : Type} (k : string) (kvs : list (string * V)) : option V :=
  match kvs with
  | [] => None
  | (k', v) :: r => if String.eqb k' k then Some v else dict_get k r
  end.

(** [d[k] = v]: replaces the value in place if [k] is present, otherwise
    appends the entry at the end. *)
Fixpoint dict_set {V : Type} (k : string) (v : V) (kvs : list (string * V))
  : list (string * V) :=
  match kvs with
  | [] => [(k, v)]
  | (k', v') :: r => if String.eqb k' k then (k', v) :: r else (k', v') :: dict_set k v r
  end.

(** [{**a, **b}] *)
Definition dict_merge {V : Type} (a b : list (string * V)) : list (string * V) :=
  fold_left (fun acc kv => dict_set (fst kv) (snd kv) acc) b a.

(** ** Decimal printing and Python's [str] / [repr] *)

Fixpoint uint_to_string (d : Decimal.uint) : string :=
  match d with
  | Decimal.Nil => ""
  | Decimal.D0 r => String "0" (uint_to_string r)
  | Decimal.D1 r => String "1" (uint_to_string r)
  | Decimal.D2 r => String "2" (uint_to_string r)
  | Decimal.D3 r => String "3" (uint_to_string r)
  | Decimal.D4 r => String "4" (uint_to_string r)
  | Decimal.D5 r => String "5" (uint_to_string r)
  | Decimal.D6 r => String "6" (uint_to_string r)
  | Decimal.D7 r => String "7" (uint_to_string r)
  | Decimal.D8 r => String "8" (uint_to_string r)
  | Decimal.D9 r => String "9" (uint_to_string r)
  end.

Definition nat_to_string (n : nat) : string := uint_to_string (Nat.to_uint n).

Definition Z_to_string (z : Z) : string :=
  match Z.to_int z with
  | Decimal.Pos u => uint_to_string u
  | Decimal.Neg u => "-" +++ uint_to_string u
  end.

Fixpoint join (sep : string) (l : list string) : string :=
  match l with
  | [] => ""
  | [x] => x
  | x :: r => x +++ sep +++ join sep r
  end.

(** [repr(s)] of a string, with single quotes (Python's choice of quotes
    and its escapes for quotes, backslashes and control characters are not
    reproduced). *)
Definition str_repr (s : string) : string := "'" +++ s +++ "'".

(** [repr] of a document value. *)
Fixpoint py_repr (j : json) : string :=
  match j with
  | JNull => "None"
  | JBool true => "True"
  | JBool false => "False"
  | JNum z => Z_to_string z
  | JStr s => str_repr s
  | JList xs => "[" +++ join ", " (map py_repr xs) +++ "]"
  | JObj kvs =>
      "{" +++ join ", " (map (fun kv => str_repr (fst kv) +++ ": " +++ py_repr (snd kv)) kvs)
      +++ "}"
  end.

(** [str] (and f-string formatting) of a document value. *)
Definition py_str (j : json) : string :=
  match j with
  | JStr s => s
  | _ => py_repr j
  end.

(** Python's type name, as it appears in [AttributeError] messages. *)
Definition type_name (j : json) : string :=
  match j with
  | JNull => "NoneType"
  | JBool _ => "bool"
  | JNum _ => "int"
  | JStr _ => "str"
  | JList _ => "list"
  | JObj _ => "dict"
  end.

(* ------------------------------------------------------------------ *)
(** ** String helpers used by the pointer resolver *)

(** [s.split(c)] for a one-character separator: empty fields are kept,
    [""] splits to [[""]]. *)
Fixpoint split_on (c : ascii) (s : string) : list string :=
  match s with
  | EmptyString => [EmptyString]
  | String x r =>
      let parts := split_on c r in
      if Ascii.eqb x c then EmptyString :: parts
      else match parts with
           | p :: ps => String x p :: ps
           | [] => [String x EmptyString]
           end
  end.

(** [s.replace(a + b, c)] for a two-character pattern and a one-character
    replacement: non-overlapping occurrences, scanned left to right. *)
Fixpoint replace2 (a b c : ascii) (s : string) : string :=
  match s with
  | EmptyString => EmptyString
  | String x r =>
      if Ascii.eqb x a then
        match r with
        | String y r' =>
            if Ascii.eqb y b then String c (replace2 a b c r')
            else String x (replace2 a b c r)
        | EmptyString => String x EmptyString
        end
      else String x (replace2 a b c r)
  end.

(** [part.replace('~1', '/').replace('~0', '~')] *)
Definition unescape (part : string) : string :=
  replace2 "~" "0" "~" (replace2 "~" "1" "/" part).

(** ** Python's [int(part)] and [lst[i]] *)

Definition is_py_space (c : ascii) : bool :=
  match nat_of_ascii c with
  | 32 | 9 | 10 | 11 | 12 | 13 => true
  | _ => false
  end.

Fixpoint drop_spaces (cs : list ascii) : list ascii :=
  match cs with
  | c :: r => if is_py_space c then drop_spaces r else cs
  | [] => []
  end.

Definition digit_value (c : ascii) : option Z :=
  let n := nat_of_ascii c in
  if (48 <=? n)%nat && (n <=? 57)%nat then Some (Z.of_nat (n - 48)) else None.

(** Digits with single underscores between them ([1_000]). *)
Fixpoint digits_us (cs : list ascii) (acc : Z) (prev_us : bool) : option Z :=
  match cs with
  | [] => if prev_us then None else Some acc
  | c :: r =>
      if Ascii.eqb c "_" then (if prev_us then None else digits_us r acc true)
      else match digit_value c with
           | Some d => digits_us r (acc * 10 + d) false
           | None => None
           end
  end.

Definition unsigned_int (cs : list ascii) : option Z :=
  match cs with
  | c :: r => match digit_value c with
              | Some d => digits_us r d false
              | None => None
              end
  | [] => None
  end.

(** [int(s)] on an ASCII string: surrounding whitespace, an optional sign,
    decimal digits with single underscores; [None] where Python raises
    [ValueError]. *)
Definition py_int (s : string) : option Z :=
  let cs := rev (drop_spaces (rev (drop_spaces (list_ascii_of_string s)))) in
  match cs with
  | "-"%char :: r => option_map Z.opp (unsigned_int r)
  | "+"%char :: r => unsigned_int r
  | _ => unsigned_int cs
  end.

(** [xs[i]], with Python's negative indices; [None] where Python raises
    [IndexError]. *)
Definition py_index {A} (xs : list A) (i : Z) : option A :=
  let n := Z.of_nat (length xs) in
  if ((0 <=? i) && (i <? n))%Z then nth_error xs (Z.to_nat i)
  else if ((- n <=? i) && (i <? 0))%Z then nth_error xs (Z.to_nat (n + i))
  else None.

(* ------------------------------------------------------------------ *)
(** ** The pointer resolver *)

(** The exceptions [resolve_ref_pointer] can raise. *)
Inductive py_exc : Type :=
| ValueError (msg : string)            (** raised explicitly, or by [int()] *)
| KeyError (key : string)              (** [current[part]] on a dict *)
| IndexError                           (** [current[int(part)]] out of range *)
| AttributeError (tname attr : string). (** [ref_path.startswith] on a non-str *)

(** [str(e)] *)
Definition exc_str (e : py_exc) : string :=
  match e with
  | ValueError m => m
  | KeyError k => str_repr k
  | IndexError => "list index out of range"
  | AttributeError t a => "'" +++ t +++ "' object has no attribute '" +++ a +++ "'"
  end.

(** The loop of [resolve_ref_pointer] over the pointer's segments. *)
Fixpoint walk (ref_path : string) (parts : list string) (current : json)
  : json + py_exc :=
  match parts with
  | [] => inl current
  | part :: ps =>
      let part := unescape part in
      match current with
      | JObj kvs =>
          match dict_get part kvs with
          | Some v => walk ref_path ps v
          | None => inr (KeyError part)
          end
      | JList xs =>
          match py_int part with
          | None => inr (ValueError ("invalid literal for int() with base 10: " +++ str_repr part))
          | Some i =>
              match py_index xs i with
              | Some v => walk ref_path ps v
              | None => inr IndexError
              end
          end
      | _ => inr (ValueError ("Cannot resolve path " +++ ref_path))
      end
  end.

(** [resolve_ref_pointer(ref_path, root_doc)]; the value of a ["$ref"] key
    may be any document value, [startswith] fails on a non-string. *)
Definition resolve_ref_pointer (ref : json) (root_doc : json) : json + py_exc :=
  match ref with
  | JStr ref_path =>
      match ref_path with
      | String "#" (String "/" rest) => walk ref_path (split_on "/" rest) root_doc
      | _ => inr (ValueError ("External references not supported: " +++ ref_path))
      end
  | _ => inr (AttributeError (type_name ref) "startswith")
  end.

(* ------------------------------------------------------------------ *)
(** ** The expander *)

(** [{key: f(key, value) for key, value in d.items()}], where [f] may fail. *)
Fixpoint map_kvs_opt (f : string -> json -> option json) (l : list (string * json))
  : option (list (string * json)) :=
  match l with
  | [] => Some []
  | (key, value) :: r =>
      match f key value, map_kvs_opt f r with
      | Some v', Some r' => Some ((key, v') :: r')
      | _, _ => None
      end
  end.

(** [[f(i, item) for i, item in enumerate(l, start)]], where [f] may fail. *)
Fixpoint mapi_opt (f : nat -> json -> option json) (i : nat) (l : list json)
  : option (list json) :=
  match l with
  | [] => Some []
  | item :: r =>
      match f i item, mapi_opt f (S i) r with
      | Some v', Some r' => Some (v' :: r')
      | _, _ => None
      end
  end.

(** [MAX_DEPTH = 10] *)
Definition MAX_DEPTH : nat := 10.

(** [{"type": "object", "description": d}] *)
Definition placeholder (d : string) : json :=
  JObj [("type", JStr "object"); ("description", JStr d)].

(** [f"{path}:{ref_path}"] *)
Definition tracking_key (path : string) (ref_path : json) : string :=
  path +++ ":" +++ py_str ref_path.

(** [tracking_key in visited_paths]; the set is a list of its elements. *)
Definition mem (k : string) (visited : list string) : bool :=
  existsb (String.eqb k) visited.

(** [visited_paths.add(k)] *)
Definition set_add (k : string) (visited : list string) : list string :=
  if mem k visited then visited else k :: visited.

(** [{k: v for k, v in obj.items() if k != '$ref'}] *)
Definition other_props {V : Type} (kvs : list (string * V)) : list (string * V) :=
  filter (fun kv => negb (String.eqb (fst kv) "$ref")) kvs.

(** Lines 66-69: the sibling keys are overlaid on the resolved target when
    there are any and the target is a dict.  [deepcopy] is the identity on
    values. *)
Definition merge_siblings (resolved : json) (kvs : list (string * json)) : json :=
  match other_props kvs with
  | [] => resolved
  | props =>
      match resolved with
      | JObj rkvs => JObj (dict_merge rkvs props)
      | _ => resolved
      end
  end.

(** [expand_refs(obj, root_doc, path, depth, visited_paths)].  Passing the
    visited list by value is the [visited_paths.copy()] of every call site.
    The recursion into a resolved target is not structural: [expand] is
    structural in the tree and spends one unit of [fuel] per dereference;
    [None] means the fuel ran out (never the case with the fuel given by
    [expand_refs] below).  Inside the [try], only [resolve_ref_pointer]
    can raise: [deepcopy], the merge and the recursive call do not fail on
    document values. *)
Fixpoint expand (fuel : nat) : json -> json -> string -> nat -> list string -> option json :=
  fix go (obj root_doc : json) (path : string) (depth : nat) (visited_paths : list string)
      {struct obj} : option json :=
    if MAX_DEPTH <? depth then
      Some (placeholder ("Max expansion depth reached at " +++ path))
    else
      match obj with
      | JObj kvs =>
          match dict_get "$ref" kvs with
          | Some ref_path =>
              let key := tracking_key path ref_path in
              if mem key visited_paths then
                Some (placeholder ("Circular reference: " +++ py_str ref_path))
              else
                let visited' := set_add key visited_paths in
                match resolve_ref_pointer ref_path root_doc with
                | inr e =>
                    Some (placeholder ("Error resolving " +++ py_str ref_path +++ ": " +++ exc_str e))
                | inl resolved =>
                    match fuel with
                    | O => None
                    | S fuel' =>
                        expand fuel' (merge_siblings resolved kvs) root_doc
                          (path +++ "->" +++ py_str ref_path) (S depth) visited'
                    end
                end
          | None =>
              option_map JObj
                (map_kvs_opt (fun key value =>
                   go value root_doc (path +++ "." +++ key) depth visited_paths) kvs)
          end
      | JList xs =>
          option_map JList
            (mapi_opt (fun i item =>
               go item root_doc (path +++ "[" +++ nat_to_string i +++ "]") depth visited_paths) 0 xs)
      | _ => Some obj
      end.

(** The Python function, with the fuel its depth guard allows: one
    dereference per level from [depth] to [MAX_DEPTH]. *)
Definition expand_refs (obj root_doc : json) (path : string) (depth : nat)
  (visited_paths : list string) : option json :=
  expand (S MAX_DEPTH - depth) obj root_doc path depth visited_paths.

(** The call of [process_file]: [expand_refs(doc, doc)]. *)
Definition expand_doc (doc : json) : option json := expand_refs doc doc "root" 0 [].

(** No dict anywhere in the tree has a ["$ref"] key. *)
Fixpoint ref_free (j : json) : bool :=
  match j with
  | JList xs => forallb ref_free xs
  | JObj kvs => negb (dict_has "$ref" kvs) && forallb (fun kv => ref_free (snd kv)) kvs
  | _ => true
  end.

(* ------------------------------------------------------------------ *)
(** ** The call graph of [expand_refs] and its visited sets *)

(** One call of [expand_refs]: [(obj, path, depth, visited_paths)];
    [root_doc] is the same in all calls. *)
Record call : Type := mk_call {
  c_obj : json;
  c_path : string;
  c_depth : nat;
  c_visited : list string
}.

(** [step root_doc c c']: the call [c] makes the recursive call [c'], at
    line 72 (following a reference), line 79 (a value of a dict without
    ["$ref"]) or line 84 (an item of a list). *)
Inductive step (root_doc : json) : call -> call -> Prop :=
| step_ref : forall kvs path depth visited_paths ref_path resolved,
    depth <= MAX_DEPTH ->
    dict_get "$ref" kvs = Some ref_path ->
    mem (tracking_key path ref_path) visited_paths = false ->
    resolve_ref_pointer ref_path root_doc = inl resolved ->
    step root_doc (mk_call (JObj kvs) path depth visited_paths)
      (mk_call (merge_siblings resolved kvs) (path +++ "->" +++ py_str ref_path) (S depth)
         (set_add (tracking_key path ref_path) visited_paths))
| step_dict : forall kvs key value path depth visited_paths,
    depth <= MAX_DEPTH ->
    dict_get "$ref" kvs = None ->
    In (key, value) kvs ->
    step root_doc (mk_call (JObj kvs) path depth visited_paths)
      (mk_call value (path +++ "." +++ key) depth visited_paths)
| step_list : forall xs i item path depth visited_paths,
    depth <= MAX_DEPTH ->
    nth_error xs i = Some item ->
    step root_doc (mk_call (JList xs) path depth visited_paths)
      (mk_call item (path +++ "[" +++ nat_to_string i +++ "]") depth visited_paths).

(** The calls made, directly or not, by the call [c0]. *)
Definition reachable (root_doc : json) (c0 c : call) : Prop :=
  clos_refl_trans_1n call (step root_doc) c0 c.

(** Every tracking key in the visited set was made at a location [a] of an
    ancestor call that followed a reference, so [a ++ "->"] starts the
    current location. *)
Definition visited_inv (path : string) (visited_paths : list string) : Prop :=
  forall k, In k visited_paths ->
  exists a r t, k = a +++ ":" +++ r /\ path = a +++ "->" +++ t.


(* ------------------------------------------------------------------ *)
(** ** Example documents *)

(** [d[k]] on a document that is a dict. *)
Definition get (k : string) (j : json) : option json :=
  match j with
  | JObj kvs => dict_get k kvs
  | _ => None
  end.

(** [s * n] *)
Fixpoint repeat_str (n : nat) (s : string) : string :=
  match n with
  | O => ""
  | S n' => s +++ repeat_str n' s
  end.

(** The document of the self-reference example:
    [{"components": {"schemas": {"A": {"$ref": "#/components/schemas/A"}}}}]. *)
Definition self_ref_doc : json :=
  JObj [("components", JObj [("schemas", JObj [
    ("A", JObj [("$ref", JStr "#/components/schemas/A")])])])].

(** A chain through the schemas [S1 .. Sn]: [Si] refers to [S(i+1)] and
    [Sn] is a plain schema; the top-level key ["schema"] refers to [S1],
    so following it takes [n] dereferences. *)
Definition schema_ref (i : nat) : string := "#/components/schemas/S" +++ nat_to_string i.

Definition chain_schema (n i : nat) : json :=
  if i <? n then JObj [("$ref", JStr (schema_ref (S i)))]
  else JObj [("type", JStr "string")].

Definition chain_doc (n : nat) : json :=
  JObj [("components", JObj [("schemas",
          JObj (map (fun i => ("S" +++ nat_to_string i, chain_schema n i)) (seq 1 n)))]);
        ("schema", JObj [("$ref", JStr (schema_ref 1))])].

(** The document of the override example: [Pet] and a reference to it
    with a ["description"] sibling; also a reference to a missing schema
    next to ordinary keys. *)
Definition pet_doc : json :=
  JObj [("components", JObj [("schemas", JObj [
          ("Pet", JObj [("type", JStr "object"); ("description", JStr "original")])])]);
        ("pet", JObj [("$ref", JStr "#/components/schemas/Pet"); ("description", JStr "override")]);
        ("missing", JObj [("$ref", JStr "#/components/schemas/DoesNotExist")]);
        ("tags", JList [JStr "a"; JObj [("$ref", JStr "#/components/schemas/Pet")]])].

(** The call made at line 72 for [A] in [self_ref_doc], after the first
    dereference: the tracking key of the first call is in its visited set. *)
Definition self_ref_call1 : call :=
  mk_call (JObj [("$ref", JStr "#/components/schemas/A")])
    "root.components.schemas.A->#/components/schemas/A" 1
    ["root.components.schemas.A:#/components/schemas/A"].

(** Decoding of a reference token as RFC 6901 (sections 3 and 4) defines
    it, read left to right: ["~0"] stands for ['~'] and ["~1"] for ['/'].
    A ['~'] followed by anything else is not a valid token; it is kept. *)
Fixpoint rfc6901_unescape (s : string) : string :=
  match s with
  | EmptyString => EmptyString
  | String x r =>
      if Ascii.eqb x "~" then
        match r with
        | String y r' =>
            if Ascii.eqb y "0" then String "~" (rfc6901_unescape r')
            else if Ascii.eqb y "1" then String "/" (rfc6901_unescape r')
            else String x (rfc6901_unescape r)
        | EmptyString => String x EmptyString
        end
      else String x (rfc6901_unescape r)
  end.

Definition head_char (s : string) : option ascii :=
  match s with
  | EmptyString => None
  | String x _ => Some x
  end.


(* ------------------------------------------------------------------ *)
(** ** The rest of the script *)

(** [sub in s] on strings: [sub] occurs in [s] as a substring. *)
Fixpoint str_contains (sub s : string) : bool :=
  String.prefix sub s ||
  match s with
  | EmptyString => false
  | String _ r => str_contains sub r
  end.

(** [remove_unused_components(doc)]: [if 'components' in doc: del
    doc['components']], then [return doc].  [inr msg] is the [TypeError]
    raised by the membership test or by the deletion.  On a dict the key is
    absent afterwards and the other entries keep their order.  The console
    output of line 121 is not modeled. *)
Definition remove_unused_components (doc : json) : json + string :=
  match doc with
  | JObj kvs =>
      if dict_has "components" kvs
      then inl (JObj (filter (fun kv => negb (String.eqb (fst kv) "components")) kvs))
      else inl doc
  | JList xs =>
      if existsb (fun x => match x with
                           | JStr s => String.eqb s "components"
                           | _ => false
                           end) xs
      then inr "list indices must be integers or slices, not str"
      else inl doc
  | JStr s =>
      if str_contains "components" s then inr "'str' object does not support item deletion"
      else inl doc
  | _ => inr ("argument of type '" +++ type_name doc +++ "' is not iterable")
  end.

(** The document [process_file] saves (lines 138-141):
    [remove_unused_components(expand_refs(doc, doc))]; [inr] is the
    [TypeError] that aborts it before anything is written. *)
Definition process_doc (doc : json) : option (json + string) :=
  option_map remove_unused_components (expand_doc doc).




(** [c.isdigit()] for a character, read as the code point U+0000 to U+00FF:
    the ASCII digits and the superscripts two, three and one. *)
Definition py_isdigit_char (c : ascii) : bool :=
  let n := nat_of_ascii c in
  ((48 <=? n) && (n <=? 57)) || (n =? 178) || (n =? 179) || (n =? 185).

(** [s.isdigit()] *)
Definition py_isdigit (s : string) : bool :=
  negb (String.eqb s "") && forallb py_isdigit_char (list_ascii_of_string s).

(** The [style] [str_representer] passes to [represent_scalar]: a double
    quote for the empty string and for three-digit strings; [None] leaves
    the choice to the dumper. *)
Definition str_representer_style (data : string) : option ascii :=
  if String.eqb data "" then Some "034"%char
  else if (String.length data =? 3) && py_isdigit data then Some "034"%char
  else None.

(** *** Pointers written from document paths *)

(** A step of a path in a document: a dict key or a list position. *)
Inductive seg : Type :=
| SKey (k : string)
| SIdx (i : nat).

(** The RFC 6901 encoding of a key as a reference token: ['~'] is written
    ["~0"] and ['/'] is written ["~1"]. *)
Fixpoint escape_token (s : string) : string :=
  match s with
  | EmptyString => EmptyString
  | String c r =>
      if Ascii.eqb c "~" then String "~" (String "0" (escape_token r))
      else if Ascii.eqb c "/" then String "~" (String "1" (escape_token r))
      else String c (escape_token r)
  end.

Definition seg_token (s : seg) : string :=
  match s with
  | SKey k => escape_token k
  | SIdx i => nat_to_string i
  end.

(** The local reference to the value at a path. *)
Definition pointer_of (segs : list seg) : string :=
  "#/" +++ join "/" (map seg_token segs).

(** The value at a path, with keys looked up in dicts and positions in
    lists. *)
Fixpoint lookup_segs (segs : list seg) (j : json) : option json :=
  match segs with
  | [] => Some j
  | SKey k :: r =>
      match j with
      | JObj kvs => match dict_get k kvs with Some v => lookup_segs r v | None => None end
      | _ => None
      end
  | SIdx i :: r =>
      match j with
      | JList xs => match nth_error xs i with Some v => lookup_segs r v | None => None end
      | _ => None
      end
  end.



(* ------------------------------------------------------------------ *)
(** ** The expander over an object store *)

(** Python objects live in a store: a dict, a list or a set is a location,
    and a document value is a scalar or a location.  The expander reads
    and allocates objects and adds keys to its visited set in place; this
    module states which of its writes touch existing objects. *)
Module Heap.

Abbreviation loc := positive.

Inductive val : Type :=
| VNone
| VBool (b : bool)
| VInt (z : Z)
| VStr (s : string)
| VPtr (l : loc).

Inductive obj : Type :=
| ODict (kvs : list (string * val))
| OList (xs : list val)
| OSet (ks : list string).

Abbreviation heap := (gmap loc obj).

(** A call ends normally, raises an exception (with its [str]), or, in the
    model only, runs out of fuel. *)
Inductive outcome (A : Type) : Type :=
| Ok (a : A)
| Exn (msg : string)
| OutOfFuel.
Arguments Ok {A} a.
Arguments Exn {A} msg.
Arguments OutOfFuel {A}.

Definition M (A : Type) : Type := heap -> outcome A * heap.

Definition ret {A} (a : A) : M A := fun h => (Ok a, h).

Definition bind {A B} (m : M A) (f : A -> M B) : M B :=
  fun h =>
    match m h with
    | (Ok a, h') => f a h'
    | (Exn e, h') => (Exn e, h')
    | (OutOfFuel, h') => (OutOfFuel, h')
    end.

Local Notation "x <- m ;; k" := (bind m (fun x => k))
  (at level 100, m at next level, right associativity).

Definition raise {A} (msg : string) : M A := fun h => (Exn msg, h).

Definition out_of_fuel {A} : M A := fun h => (OutOfFuel, h).

(** [try: m except Exception as e: handler(str(e))] *)
Definition try_except {A} (m : M A) (handler : string -> M A) : M A :=
  fun h =>
    match m h with
    | (Exn e, h') => handler e h'
    | r => r
    end.

(** A new object, at a location not in use. *)
Definition alloc (o : obj) : M loc :=
  fun h => let l := fresh (dom h) in (Ok l, <[l := o]> h).

Definition load (l : loc) : M obj :=
  fun h =>
    match h !! l with
    | Some o => (Ok o, h)
    | None => (Exn "dangling reference", h)
    end.

(** [k in s], [s.add(k)] and [s.copy()] on the visited set. *)
Definition set_mem (l : loc) (k : string) : M bool :=
  o <- load l ;;
  match o with
  | OSet ks => ret (existsb (String.eqb k) ks)
  | _ => raise "visited_paths is not a set"
  end.

Definition set_add_h (l : loc) (k : string) : M unit :=
  fun h =>
    match h !! l with
    | Some (OSet ks) =>
        (Ok tt, <[l := OSet (if existsb (String.eqb k) ks then ks else ks ++ [k])]> h)
    | Some _ => (Exn "visited_paths is not a set", h)
    | None => (Exn "dangling reference", h)
    end.

Definition set_copy (l : loc) : M loc :=
  o <- load l ;;
  match o with
  | OSet ks => alloc (OSet ks)
  | _ => raise "visited_paths is not a set"
  end.

Fixpoint mapM {A B} (f : A -> M B) (l : list A) : M (list B) :=
  match l with
  | [] => ret []
  | x :: r => y <- f x ;; ys <- mapM f r ;; ret (y :: ys)
  end.

Fixpoint mapM_opt {A B} (f : A -> option B) (l : list A) : option (list B) :=
  match l with
  | [] => Some []
  | x :: r =>
      match f x, mapM_opt f r with
      | Some y, Some ys => Some (y :: ys)
      | _, _ => None
      end
  end.

(** The document value at [v], read from the store ([None] on a set, a
    dangling location, or when [n] levels do not reach the leaves). *)
Fixpoint snapshot (n : nat) (h : heap) (v : val) : option json :=
  match v with
  | VNone => Some JNull
  | VBool b => Some (JBool b)
  | VInt z => Some (JNum z)
  | VStr s => Some (JStr s)
  | VPtr l =>
      match n with
      | O => None
      | S n' =>
          match h !! l with
          | Some (ODict kvs) =>
              option_map JObj
                (mapM_opt (fun kv => option_map (pair (fst kv)) (snapshot n' h (snd kv))) kvs)
          | Some (OList xs) => option_map JList (mapM_opt (snapshot n' h) xs)
          | _ => None
          end
      end
  end.

(** [str(v)], through the document value it denotes. *)
Definition str_h (n : nat) (v : val) : M string :=
  fun h =>
    match snapshot n h v with
    | Some j => (Ok (py_str j), h)
    | None => (Exn "str of a non-document value", h)
    end.

(** [deepcopy(v)] of a tree: every dict and list reached is copied. *)
Fixpoint deepcopy (fuel : nat) (v : val) : M val :=
  match v with
  | VPtr l =>
      match fuel with
      | O => out_of_fuel
      | S fuel' =>
          o <- load l ;;
          match o with
          | ODict kvs =>
              kvs' <- mapM (fun kv => v' <- deepcopy fuel' (snd kv) ;; ret (fst kv, v')) kvs ;;
              l' <- alloc (ODict kvs') ;; ret (VPtr l')
          | OList xs =>
              xs' <- mapM (deepcopy fuel') xs ;;
              l' <- alloc (OList xs') ;; ret (VPtr l')
          | OSet ks => l' <- alloc (OSet ks) ;; ret (VPtr l')
          end
      end
  | _ => ret v
  end.

(** The loop of [resolve_ref_pointer]. *)
Fixpoint walk_h (ref_path : string) (parts : list string) (current : val) : M val :=
  match parts with
  | [] => ret current
  | part :: ps =>
      let part := unescape part in
      match current with
      | VPtr l =>
          o <- load l ;;
          match o with
          | ODict kvs =>
              match dict_get part kvs with
              | Some v => walk_h ref_path ps v
              | None => raise (exc_str (KeyError part))
              end
          | OList xs =>
              match py_int part with
              | None =>
                  raise (exc_str (ValueError ("invalid literal for int() with base 10: " +++
                                              str_repr part)))
              | Some i =>
                  match py_index xs i with
                  | Some v => walk_h ref_path ps v
                  | None => raise (exc_str IndexError)
                  end
              end
          | OSet _ => raise (exc_str (ValueError ("Cannot resolve path " +++ ref_path)))
          end
      | _ => raise (exc_str (ValueError ("Cannot resolve path " +++ ref_path)))
      end
  end.

Definition obj_type_name (o : obj) : string :=
  match o with
  | ODict _ => "dict"
  | OList _ => "list"
  | OSet _ => "set"
  end.

Definition resolve_ref_pointer_h (ref : val) (root_doc : val) : M val :=
  match ref with
  | VStr ref_path =>
      match ref_path with
      | String "#" (String "/" rest) => walk_h ref_path (split_on "/" rest) root_doc
      | _ => raise (exc_str (ValueError ("External references not supported: " +++ ref_path)))
      end
  | VPtr l => o <- load l ;; raise (exc_str (AttributeError (obj_type_name o) "startswith"))
  | VNone => raise (exc_str (AttributeError "NoneType" "startswith"))
  | VBool _ => raise (exc_str (AttributeError "bool" "startswith"))
  | VInt _ => raise (exc_str (AttributeError "int" "startswith"))
  end.

(** [{"type": "object", "description": d}], a new dict. *)
Definition new_placeholder (d : string) : M val :=
  l <- alloc (ODict [("type", VStr "object"); ("description", VStr d)]) ;; ret (VPtr l).

(** Lines 66-69 after the [deepcopy]: a new dict when there are siblings
    and the target is a dict. *)
Definition merge_h (resolved : val) (kvs : list (string * val)) : M val :=
  match other_props kvs with
  | [] => ret resolved
  | props =>
      match resolved with
      | VPtr rl =>
          o <- load rl ;;
          match o with
          | ODict rkvs => l <- alloc (ODict (dict_merge rkvs props)) ;; ret (VPtr l)
          | _ => ret resolved
          end
      | _ => ret resolved
      end
  end.

(** [expand_refs(obj, root_doc, path, depth, visited_paths)] over the
    store; [visited] is [None] or the location of a set, and every call
    spends one unit of [fuel]. *)
Fixpoint expand_h (fuel : nat) (o : val) (root_doc : val) (path : string) (depth : nat)
  (visited : option loc) : M val :=
  match fuel with
  | O => out_of_fuel
  | S fuel' =>
      vis <- match visited with
             | None => alloc (OSet [])
             | Some l => ret l
             end ;;
      if MAX_DEPTH <? depth then new_placeholder ("Max expansion depth reached at " +++ path)
      else
        match o with
        | VPtr l =>
            ob <- load l ;;
            match ob with
            | ODict kvs =>
                match dict_get "$ref" kvs with
                | Some ref_path =>
                    rs <- str_h fuel' ref_path ;;
                    let key := path +++ ":" +++ rs in
                    seen <- set_mem vis key ;;
                    if seen then new_placeholder ("Circular reference: " +++ rs)
                    else
                      _ <- set_add_h vis key ;;
                      try_except
                        (resolved <- resolve_ref_pointer_h ref_path root_doc ;;
                         resolved <- deepcopy fuel' resolved ;;
                         merged <- merge_h resolved kvs ;;
                         vis' <- set_copy vis ;;
                         expand_h fuel' merged root_doc (path +++ "->" +++ rs) (S depth) (Some vis'))
                        (fun msg => new_placeholder ("Error resolving " +++ rs +++ ": " +++ msg))
                | None =>
                    kvs' <- mapM (fun kv =>
                              vis' <- set_copy vis ;;
                              v' <- expand_h fuel' (snd kv) root_doc (path +++ "." +++ fst kv)
                                      depth (Some vis') ;;
                              ret (fst kv, v')) kvs ;;
                    l' <- alloc (ODict kvs') ;; ret (VPtr l')
                end
            | OList xs =>
                xs' <- mapM (fun iv =>
                         vis' <- set_copy vis ;;
                         expand_h fuel' (snd iv) root_doc
                           (path +++ "[" +++ nat_to_string (fst iv) +++ "]") depth (Some vis'))
                       (combine (seq 0 (length xs)) xs) ;;
                l' <- alloc (OList xs') ;; ret (VPtr l')
            | OSet _ => ret o
            end
        | _ => ret o
        end
  end.

(** The objects of a parsed document, allocated in the store. *)
Fixpoint of_json (j : json) : M val :=
  match j with
  | JNull => ret VNone
  | JBool b => ret (VBool b)
  | JNum z => ret (VInt z)
  | JStr s => ret (VStr s)
  | JList xs =>
      xs' <- mapM of_json xs ;; l <- alloc (OList xs') ;; ret (VPtr l)
  | JObj kvs =>
      kvs' <- mapM (fun kv => v <- of_json (snd kv) ;; ret (fst kv, v)) kvs ;;
      l <- alloc (ODict kvs') ;; ret (VPtr l)
  end.

(** Objects other than sets: the dicts and lists of documents. *)
Definition is_set (o : obj) : bool :=
  match o with
  | OSet _ => true
  | _ => false
  end.

(** [h'] holds every dict and list of [h] unchanged, at its location. *)
Definition preserved (h h' : heap) : Prop :=
  forall l o, h !! l = Some o -> is_set o = false -> h' !! l = Some o.

(** A computation that writes no existing dict or list. *)
Definition frame {A} (m : M A) : Prop :=
  forall h, preserved h (snd (m h)).

(** [remove_unused_components(doc)] on the store: [del doc['components']]
    writes the dict in place. *)
Definition remove_h (doc : val) : M val :=
  match doc with
  | VPtr l =>
      o <- load l ;;
      match o with
      | ODict kvs =>
          if dict_has "components" kvs then
            fun h =>
              (Ok doc,
               <[l := ODict (filter (fun kv => negb (String.eqb (fst kv) "components")) kvs)]> h)
          else ret doc
      | OList xs =>
          if existsb (fun x => match x with
                               | VStr s => String.eqb s "components"
                               | _ => false
                               end) xs
          then raise "list indices must be integers or slices, not str"
          else ret doc
      | OSet ks =>
          if existsb (String.eqb "components") ks
          then raise "'set' object does not support item deletion"
          else ret doc
      end
  | VStr s =>
      if str_contains "components" s then raise "'str' object does not support item deletion"
      else ret doc
  | VNone => raise "argument of type 'NoneType' is not iterable"
  | VBool _ => raise "argument of type 'bool' is not iterable"
  | VInt _ => raise "argument of type 'int' is not iterable"
  end.

(** Lines 138-141 of [process_file], on the loaded document [doc]. *)
Definition process_h (fuel : nat) (doc : val) : M val :=
  expanded <- expand_h fuel doc doc "root" 0 None ;;
  remove_h expanded.

(** The store and root of [pet_doc] once parsed. *)
Definition pet_store : heap := snd (of_json pet_doc empty).

Definition pet_root : val :=
  match fst (of_json pet_doc empty) with
  | Ok v => v
  | _ => VNone
  end.

End Heap.


(* ------------------------------------------------------------------ *)
(** ** Equations of the expander *)

Lemma expand_eq (fuel : nat) (obj root_doc : json) (path : string) (depth : nat)
  (visited_paths : list string) :
  expand fuel obj root_doc path depth visited_paths =
    if MAX_DEPTH <? depth then
      Some (placeholder ("Max expansion depth reached at " +++ path))
    else
      match obj with
      | JObj kvs =>
          match dict_get "$ref" kvs with
          | Some ref_path =>
              let key := tracking_key path ref_path in
              if mem key visited_paths then
                Some (placeholder ("Circular reference: " +++ py_str ref_path))
              else
                match resolve_ref_pointer ref_path root_doc with
                | inr e =>
                    Some (placeholder ("Error resolving " +++ py_str ref_path +++ ": " +++ exc_str e))
                | inl resolved =>
                    match fuel with
                    | O => None
                    | S fuel' =>
                        expand fuel' (merge_siblings resolved kvs) root_doc
                          (path +++ "->" +++ py_str ref_path) (S depth)
                          (set_add key visited_paths)
                    end
                end
          | None =>
              option_map JObj
                (map_kvs_opt (fun key value =>
                   expand fuel value root_doc (path +++ "." +++ key) depth visited_paths) kvs)
          end
      | JList xs =>
          option_map JList
            (mapi_opt (fun i item =>
               expand fuel item root_doc (path +++ "[" +++ nat_to_string i +++ "]") depth
                 visited_paths) 0 xs)
      | _ => Some obj
      end.
Proof. destruct fuel, obj; reflexivity. Qed.

Lemma dict_get_None_has (k : string) (kvs : list (string * json)) :
  dict_get k kvs = None <-> dict_has k kvs = false.
Proof.
  induction kvs as [|[k' v] r IH]; simpl; [tauto|].
  destruct (String.eqb k' k); simpl; [split; discriminate | exact IH].
Qed.

Lemma dict_has_same_keys (k : string) (l1 l2 : list (string * json)) :
  map fst l1 = map fst l2 -> dict_has k l1 = dict_has k l2.
Proof.
  revert l2; induction l1 as [|[k1 v1] r IH]; intros [|[k2 v2] r2] H; simpl in *;
    try discriminate; [reflexivity|].
  injection H as -> H. rewrite (IH r2 H). reflexivity.
Qed.

Lemma ref_free_placeholder (d : string) : ref_free (placeholder d) = true.
Proof. reflexivity. Qed.

Lemma map_kvs_opt_Forall (f : string -> json -> option json) (P : json -> Prop)
  (l : list (string * json)) :
  Forall (fun kv => exists v', f (fst kv) (snd kv) = Some v' /\ P v') l ->
  exists l', map_kvs_opt f l = Some l' /\ map fst l' = map fst l /\
             Forall (fun kv => P (snd kv)) l'.
Proof.
  induction 1 as [|[k v] r [v' [Hv HP]] _ [r' (Hr & Hk & HPr)]]; simpl in *.
  - exists []. auto.
  - rewrite Hv, Hr. exists ((k, v') :: r'). simpl. rewrite Hk. auto.
Qed.

Lemma mapi_opt_Forall (f : nat -> json -> option json) (P : json -> Prop)
  (l : list json) :
  (forall i, Forall (fun x => exists v', f i x = Some v' /\ P v') l) ->
  forall i, exists l', mapi_opt f i l = Some l' /\ Forall P l'.
Proof.
  induction l as [|x r IH]; intros Hall i; simpl.
  - exists []. auto.
  - destruct (Forall_inv (Hall i)) as [v' [Hv HP]].
    destruct (IH (fun j => Forall_inv_tail (Hall j)) (S i)) as [r' [Hr HPr]].
    rewrite Hv, Hr. exists (v' :: r'). auto.
Qed.

Lemma forallb_Forall {A} (p : A -> bool) (l : list A) :
  Forall (fun x => p x = true) l -> forallb p l = true.
Proof. induction 1; simpl; [reflexivity|]. rewrite H, IHForall. reflexivity. Qed.

(** With enough fuel the expander returns a tree without references. *)
Lemma expand_some_ref_free (fuel : nat) :
  forall obj root_doc path depth visited_paths,
  S MAX_DEPTH - depth <= fuel ->
  exists v, expand fuel obj root_doc path depth visited_paths = Some v /\ ref_free v = true.
Proof.
  induction fuel as [|fuel IHf]; intro obj;
    induction obj as [| | | |xs IHxs|kvs IHkvs] using json_ind';
    intros root_doc path depth visited_paths Hf; rewrite expand_eq;
    (destruct (MAX_DEPTH <? depth) eqn:Hd;
     [eexists; split; reflexivity | apply Nat.ltb_ge in Hd]);
    try (eexists; split; reflexivity).
  (* fuel = 0 leaves the guard no room *)
  1-2: exfalso; unfold MAX_DEPTH in *; lia.
  - destruct (mapi_opt_Forall
                (fun i item => expand (S fuel) item root_doc
                   (path +++ "[" +++ nat_to_string i +++ "]") depth visited_paths)
                (fun v => ref_free v = true) xs
                (fun i => Forall_impl _ _ _ IHxs (fun x Hx => Hx root_doc (path +++ "[" +++ nat_to_string i +++ "]") depth visited_paths Hf)) 0)
      as [l' [Hl' Hfree]].
    rewrite Hl'. eexists; split; [reflexivity|]. simpl. now apply forallb_Forall.
  - destruct (dict_get "$ref" kvs) as [ref_path|] eqn:Hget.
    + cbv zeta. destruct (mem (tracking_key path ref_path) visited_paths);
        [eexists; split; reflexivity|].
      destruct (resolve_ref_pointer ref_path root_doc) as [resolved|e];
        [|eexists; split; reflexivity].
      apply IHf. unfold MAX_DEPTH in *; lia.
    + destruct (map_kvs_opt_Forall
                  (fun key value => expand (S fuel) value root_doc
                     (path +++ "." +++ key) depth visited_paths)
                  (fun v => ref_free v = true) kvs
                  (Forall_impl _ _ _ IHkvs (fun kv Hx => Hx root_doc (path +++ "." +++ fst kv) depth visited_paths Hf)))
        as [l' (Hl' & Hkeys & Hfree)].
      rewrite Hl'. eexists; split; [reflexivity|]. simpl.
      apply dict_get_None_has in Hget.
      rewrite (dict_has_same_keys _ _ _ Hkeys), Hget. simpl.
      apply forallb_Forall. exact Hfree.
Qed.

Lemma map_kvs_opt_mono (f g : string -> json -> option json) (l : list (string * json)) :
  Forall (fun kv => forall r, f (fst kv) (snd kv) = Some r -> g (fst kv) (snd kv) = Some r) l ->
  forall l', map_kvs_opt f l = Some l' -> map_kvs_opt g l = Some l'.
Proof.
  induction 1 as [|[k v] r Hkv _ IH]; intros l' Hl; simpl in *; [exact Hl|].
  destruct (f k v) as [v'|] eqn:Hf; [|discriminate].
  destruct (map_kvs_opt f r) as [r'|] eqn:Hr; [|discriminate].
  rewrite (Hkv v' eq_refl), (IH r' eq_refl). exact Hl.
Qed.

Lemma mapi_opt_mono (f g : nat -> json -> option json) (l : list json) :
  (forall i, Forall (fun x => forall r, f i x = Some r -> g i x = Some r) l) ->
  forall i l', mapi_opt f i l = Some l' -> mapi_opt g i l = Some l'.
Proof.
  induction l as [|x r IH]; intros Hall i l' Hl; simpl in *; [exact Hl|].
  pose proof (Forall_inv (Hall i)) as Hx.
  destruct (f i x) as [v'|] eqn:Hf; [|discriminate].
  destruct (mapi_opt f (S i) r) as [r'|] eqn:Hr; [|discriminate].
  rewrite (Hx v' Hf), (IH (fun j => Forall_inv_tail (Hall j)) (S i) r' Hr). exact Hl.
Qed.

(** More fuel does not change a result. *)
Lemma expand_fuel_mono (f1 : nat) :
  forall f2 obj root_doc path depth visited_paths v,
  f1 <= f2 ->
  expand f1 obj root_doc path depth visited_paths = Some v ->
  expand f2 obj root_doc path depth visited_paths = Some v.
Proof.
  induction f1 as [|f1 IHf]; intros f2 obj;
    induction obj as [| | | |xs IHxs|kvs IHkvs] using json_ind';
    intros root_doc path depth visited_paths v Hle H;
    rewrite expand_eq in H |- *; destruct (MAX_DEPTH <? depth); try exact H.
  1,3: destruct (mapi_opt _ 0 xs) as [l|] eqn:Hm in H; [|discriminate];
       erewrite (mapi_opt_mono _
         (fun i item => expand f2 item root_doc (path +++ "[" +++ nat_to_string i +++ "]")
            depth visited_paths) xs
         (fun i => Forall_impl _ _ _ IHxs (fun x Hx r => Hx _ _ _ _ r Hle)) 0 l Hm);
       exact H.
  all: destruct (dict_get "$ref" kvs) as [ref_path|].
  2,4: destruct (map_kvs_opt _ kvs) as [l|] eqn:Hm in H; [|discriminate];
       erewrite (map_kvs_opt_mono _
         (fun key value => expand f2 value root_doc (path +++ "." +++ key) depth visited_paths)
         kvs (Forall_impl _ _ _ IHkvs (fun kv Hx r => Hx _ _ _ _ r Hle)) l Hm);
       exact H.
  all: cbv zeta in H |- *; destruct (mem (tracking_key path ref_path) visited_paths); [exact H|];
    destruct (resolve_ref_pointer ref_path root_doc); [|exact H].
  - discriminate.
  - destruct f2 as [|f2]; [lia|]. apply IHf; [lia|exact H].
Qed.

(** A tree without references expands to itself. *)
Lemma expand_ref_free_id (fuel : nat) :
  forall obj root_doc path depth visited_paths,
  ref_free obj = true -> depth <= MAX_DEPTH ->
  expand fuel obj root_doc path depth visited_paths = Some obj.
Proof.
  intro obj; induction obj as [| | | |xs IHxs|kvs IHkvs] using json_ind';
    intros root_doc path depth visited_paths Hfree Hd; rewrite expand_eq;
    replace (MAX_DEPTH <? depth) with false by (symmetry; apply Nat.ltb_ge; exact Hd);
    try reflexivity; simpl in Hfree.
  - assert (Hm : forall i, mapi_opt (fun i item => expand fuel item root_doc
                   (path +++ "[" +++ nat_to_string i +++ "]") depth visited_paths) i xs = Some xs).
    { induction xs as [|x r IH]; intro i; simpl; [reflexivity|].
      apply andb_prop in Hfree as [Hx Hr].
      rewrite (Forall_inv IHxs _ _ _ _ Hx Hd), (IH (Forall_inv_tail IHxs) Hr). reflexivity. }
    rewrite Hm. reflexivity.
  - apply andb_prop in Hfree as [Hno Hall]. apply negb_true_iff in Hno.
    apply dict_get_None_has in Hno. rewrite Hno.
    enough (Hm : map_kvs_opt (fun key value => expand fuel value root_doc
                   (path +++ "." +++ key) depth visited_paths) kvs = Some kvs)
      by (rewrite Hm; reflexivity).
    clear Hno. induction kvs as [|[k v] r IH]; simpl in *; [reflexivity|].
    apply andb_prop in Hall as [Hv Hr].
    rewrite (Forall_inv IHkvs _ _ _ _ Hv Hd), (IH (Forall_inv_tail IHkvs) Hr). reflexivity.
Qed.

(* ------------------------------------------------------------------ *)
(** ** Claims about the expander *)

(** C1: whatever the node, root, location, depth and visited set, the
    tree returned by [expand_refs] has no dict with a ["$ref"] key at any
    position. *)
Theorem expand_refs_no_refs :
  forall obj root_doc path depth visited_paths,
  exists v, expand_refs obj root_doc path depth visited_paths = Some v /\ ref_free v = true.
Proof.
  intros. apply expand_some_ref_free. lia.
Qed.

(** C7: a document with no ["$ref"] key anywhere expands to itself:
    [expand_refs(D, D) == D], same keys in the same order, same items,
    same scalars. *)
Theorem expand_refs_ref_free_identity :
  forall D, ref_free D = true -> expand_refs D D "root" 0 [] = Some D.
Proof.
  intros D HD. apply expand_ref_free_id; [exact HD | unfold MAX_DEPTH; lia].
Qed.

(** C9: [expand_refs] terminates on every document: the recursion needs at
    most [MAX_DEPTH + 1 - depth] dereferences (any larger budget gives the
    same result), and recursing into the values of a dict without
    ["$ref"] or into the items of a list keeps [depth] unchanged, so the
    guard does not fire there. *)
Theorem expand_refs_terminates :
  (forall obj root_doc path depth visited_paths,
     exists v, expand_refs obj root_doc path depth visited_paths = Some v) /\
  (forall fuel obj root_doc path depth visited_paths,
     S MAX_DEPTH - depth <= fuel ->
     expand fuel obj root_doc path depth visited_paths =
       expand_refs obj root_doc path depth visited_paths) /\
  (forall kvs root_doc path depth visited_paths,
     depth <= MAX_DEPTH -> dict_get "$ref" kvs = None ->
     expand_refs (JObj kvs) root_doc path depth visited_paths =
       option_map JObj (map_kvs_opt (fun key value =>
         expand_refs value root_doc (path +++ "." +++ key) depth visited_paths) kvs)) /\
  (forall xs root_doc path depth visited_paths,
     depth <= MAX_DEPTH ->
     expand_refs (JList xs) root_doc path depth visited_paths =
       option_map JList (mapi_opt (fun i item =>
         expand_refs item root_doc (path +++ "[" +++ nat_to_string i +++ "]") depth
           visited_paths) 0 xs)).
Proof.
  split; [|split; [|split]].
  - intros. destruct (expand_some_ref_free (S MAX_DEPTH - depth) obj root_doc path depth
                        visited_paths (le_n _)) as [v [Hv _]].
    exists v. exact Hv.
  - intros fuel obj root_doc path depth visited_paths Hf.
    destruct (expand_some_ref_free (S MAX_DEPTH - depth) obj root_doc path depth
                visited_paths (le_n _)) as [v [Hv _]].
    unfold expand_refs. rewrite Hv. exact (expand_fuel_mono _ _ _ _ _ _ _ _ Hf Hv).
  - intros kvs root_doc path depth visited_paths Hd Hget.
    unfold expand_refs. rewrite expand_eq.
    replace (MAX_DEPTH <? depth) with false by (symmetry; apply Nat.ltb_ge; exact Hd).
    rewrite Hget. reflexivity.
  - intros xs root_doc path depth visited_paths Hd.
    unfold expand_refs. rewrite expand_eq.
    replace (MAX_DEPTH <? depth) with false by (symmetry; apply Nat.ltb_ge; exact Hd).
    reflexivity.
Qed.

Lemma string_app_cons (x : ascii) (a b : string) : String x a +++ b = String x (a +++ b).
Proof. reflexivity. Qed.

Lemma string_app_assoc (a b c : string) : (a +++ b) +++ c = a +++ b +++ c.
Proof.
  induction a as [|x a IH]; [reflexivity|]. rewrite !string_app_cons, IH. reflexivity.
Qed.

Lemma string_app_cancel_l (a b c : string) : a +++ b = a +++ c -> b = c.
Proof.
  induction a as [|x a IH]; [auto|]. rewrite !string_app_cons. intro H.
  injection H. exact IH.
Qed.

Lemma mem_In (k : string) (visited_paths : list string) :
  mem k visited_paths = true <-> In k visited_paths.
Proof.
  unfold mem. rewrite existsb_exists. split.
  - intros [x [Hx Heq]]. apply String.eqb_eq in Heq. subst. exact Hx.
  - intro H. exists k. split; [exact H | apply String.eqb_refl].
Qed.

Lemma set_add_In (k k' : string) (visited_paths : list string) :
  In k' (set_add k visited_paths) -> k' = k \/ In k' visited_paths.
Proof.
  unfold set_add. destruct (mem k visited_paths); simpl; [tauto|].
  intros [H|H]; [left; symmetry; exact H | right; exact H].
Qed.

(** A key made at an ancestor's location is never the key of a call below
    it: the two differ right after the ancestor's location, where one has
    [':'] and the other ['-']. *)
Lemma tracking_key_fresh (a r t r' : string) :
  a +++ ":" +++ r <> (a +++ "->" +++ t) +++ ":" +++ r'.
Proof.
  rewrite string_app_assoc. intro H. apply string_app_cancel_l in H. discriminate.
Qed.

Lemma visited_inv_extend (path suffix : string) (visited_paths : list string) :
  visited_inv path visited_paths -> visited_inv (path +++ suffix) visited_paths.
Proof.
  intros Hinv k Hk. destruct (Hinv k Hk) as (a & r & t & -> & ->).
  exists a, r, (t +++ suffix). split; [reflexivity|].
  rewrite !string_app_assoc. reflexivity.
Qed.

Lemma visited_inv_step (root_doc : json) (c c' : call) :
  step root_doc c c' -> visited_inv (c_path c) (c_visited c) ->
  visited_inv (c_path c') (c_visited c').
Proof.
  destruct 1 as [kvs path depth visited_paths ref_path resolved _ _ _ _
                |kvs key value path depth visited_paths _ _ _
                |xs i item path depth visited_paths _ _]; simpl;
    try apply visited_inv_extend.
  intros Hinv k Hk. apply set_add_In in Hk as [->|Hk].
  - exists path, (py_str ref_path), (py_str ref_path). split; reflexivity.
  - exact (visited_inv_extend _ _ _ Hinv k Hk).
Qed.

Lemma visited_inv_reachable (root_doc : json) (c0 c : call) :
  reachable root_doc c0 c -> visited_inv (c_path c0) (c_visited c0) ->
  visited_inv (c_path c) (c_visited c).
Proof.
  unfold reachable. induction 1 as [c0|c1 c2 c3 Hs Hr IH]; [auto|].
  intro H1. apply IH. exact (visited_inv_step _ _ _ Hs H1).
Qed.

(** C3: in every call made by a top-level call (empty visited set), the
    test [tracking_key in visited_paths] of line 52 is false: the
    circular-reference placeholder of line 54 is never returned. *)
Theorem circular_branch_unreachable :
  forall root_doc obj path depth c kvs ref_path,
  reachable root_doc (mk_call obj path depth []) c ->
  c_obj c = JObj kvs ->
  dict_get "$ref" kvs = Some ref_path ->
  mem (tracking_key (c_path c) ref_path) (c_visited c) = false.
Proof.
  intros root_doc obj path depth c kvs ref_path Hr _ _.
  pose proof (visited_inv_reachable _ _ _ Hr (fun k (Hk : In k []) => match Hk with end))
    as Hinv.
  destruct (mem (tracking_key (c_path c) ref_path) (c_visited c)) eqn:Hm; [|reflexivity].
  exfalso. apply mem_In in Hm. destruct (Hinv _ Hm) as (a & r & t & Hk & Hp).
  unfold tracking_key in Hk. rewrite Hp in Hk.
  exact (tracking_key_fresh a r t (py_str ref_path) (eq_sym Hk)).
Qed.

(* ------------------------------------------------------------------ *)
(** ** Following one reference *)

(** Lines 56-74: a reference that resolves is expanded one level deeper,
    at location [path->ref], with the tracking key added. *)
Lemma expand_refs_follow (kvs : list (string * json)) (ref_path resolved root_doc : json)
  (path : string) (depth : nat) (visited_paths : list string) :
  depth <= MAX_DEPTH ->
  dict_get "$ref" kvs = Some ref_path ->
  mem (tracking_key path ref_path) visited_paths = false ->
  resolve_ref_pointer ref_path root_doc = inl resolved ->
  expand_refs (JObj kvs) root_doc path depth visited_paths =
    expand_refs (merge_siblings resolved kvs) root_doc (path +++ "->" +++ py_str ref_path)
      (S depth) (set_add (tracking_key path ref_path) visited_paths).
Proof.
  intros Hd Hget Hmem Hres. unfold expand_refs. rewrite expand_eq.
  replace (MAX_DEPTH <? depth) with false by (symmetry; apply Nat.ltb_ge; exact Hd).
  rewrite Hget. cbv zeta. rewrite Hmem, Hres.
  unfold MAX_DEPTH in *. replace (S 10 - depth) with (S (10 - depth)) by lia.
  reflexivity.
Qed.

(** Lines 75-76: a reference that fails to resolve becomes an error
    placeholder. *)
Lemma expand_refs_error (kvs : list (string * json)) (ref_path root_doc : json)
  (path : string) (depth : nat) (visited_paths : list string) (e : py_exc) :
  depth <= MAX_DEPTH ->
  dict_get "$ref" kvs = Some ref_path ->
  mem (tracking_key path ref_path) visited_paths = false ->
  resolve_ref_pointer ref_path root_doc = inr e ->
  expand_refs (JObj kvs) root_doc path depth visited_paths =
    Some (placeholder ("Error resolving " +++ py_str ref_path +++ ": " +++ exc_str e)).
Proof.
  intros Hd Hget Hmem Hres. unfold expand_refs. rewrite expand_eq.
  replace (MAX_DEPTH <? depth) with false by (symmetry; apply Nat.ltb_ge; exact Hd).
  rewrite Hget. cbv zeta. rewrite Hmem, Hres. reflexivity.
Qed.

Lemma expand_refs_guard (obj root_doc : json) (path : string) (depth : nat)
  (visited_paths : list string) :
  MAX_DEPTH < depth ->
  expand_refs obj root_doc path depth visited_paths =
    Some (placeholder ("Max expansion depth reached at " +++ path)).
Proof.
  intro Hd. unfold expand_refs. rewrite expand_eq.
  replace (MAX_DEPTH <? depth) with true by (symmetry; apply Nat.ltb_lt; exact Hd).
  reflexivity.
Qed.

Lemma dict_get_set (k k' : string) (v : json) (l : list (string * json)) :
  dict_get k (dict_set k' v l) = if String.eqb k' k then Some v else dict_get k l.
Proof.
  induction l as [|[k0 v0] r IH]; simpl; [reflexivity|].
  destruct (String.eqb_spec k0 k') as [->|Hne]; simpl.
  - destruct (String.eqb k' k); reflexivity.
  - destruct (String.eqb_spec k0 k) as [->|Hne']; rewrite ?IH.
    + destruct (String.eqb_spec k' k) as [->|]; [congruence | reflexivity].
    + reflexivity.
Qed.

(** [{**a, **b}[k]]: a key of [b] wins (the last occurrence, for an
    association list), otherwise the value in [a]. *)
Lemma dict_get_merge (k : string) (a b : list (string * json)) :
  dict_get k (dict_merge a b) =
    match dict_get k (rev b) with
    | Some v => Some v
    | None => dict_get k a
    end.
Proof.
  unfold dict_merge. induction b as [|[k' v] b IH] using rev_ind; simpl; [reflexivity|].
  rewrite fold_left_app, rev_app_distr. simpl.
  rewrite dict_get_set, IH. destruct (String.eqb k' k); reflexivity.
Qed.

(** C2 (evaluation at the failing input): the self-referential schema [A]
    does not expand to the circular-reference placeholder; the location
    grows by ["->#/components/schemas/A"] at each dereference, the tracking
    key is never found, and the depth guard stops the chain after eleven
    dereferences. *)
Theorem self_reference_reaches_depth_limit :
  expand_doc self_ref_doc =
    Some (JObj [("components", JObj [("schemas", JObj [
      ("A", placeholder ("Max expansion depth reached at root.components.schemas.A" +++
                         repeat_str 11 "->#/components/schemas/A"))])])]) /\
  expand_refs (JObj [("$ref", JStr "#/components/schemas/A")]) self_ref_doc
    "root.components.schemas.A" 0 [] <>
    Some (placeholder "Circular reference: #/components/schemas/A").
Proof.
  split.
  - vm_compute. reflexivity.
  - vm_compute. discriminate.
Qed.

(** C4: the guard returns the max-depth placeholder whenever [depth]
    exceeds [MAX_DEPTH] = 10; following a reference increments [depth] by
    one; and in a document whose key ["schema"] starts a chain of 15
    references through [S1 .. S15], ["schema"] expands to the max-depth
    placeholder, produced after the eleventh dereference, so no content
    beyond depth 10 is expanded. *)
Theorem depth_guard_on_chain :
  (forall obj root_doc path depth visited_paths,
     MAX_DEPTH < depth ->
     expand_refs obj root_doc path depth visited_paths =
       Some (placeholder ("Max expansion depth reached at " +++ path))) /\
  (forall kvs ref_path resolved root_doc path depth visited_paths,
     depth <= MAX_DEPTH ->
     dict_get "$ref" kvs = Some ref_path ->
     mem (tracking_key path ref_path) visited_paths = false ->
     resolve_ref_pointer ref_path root_doc = inl resolved ->
     expand_refs (JObj kvs) root_doc path depth visited_paths =
       expand_refs (merge_siblings resolved kvs) root_doc (path +++ "->" +++ py_str ref_path)
         (S depth) (set_add (tracking_key path ref_path) visited_paths)) /\
  match expand_doc (chain_doc 15) with
  | Some out => get "schema" out
  | None => None
  end =
    Some (placeholder ("Max expansion depth reached at root.schema" +++
            String.concat "" (map (fun i => "->" +++ schema_ref i) (seq 1 11)))).
Proof.
  split; [|split].
  - intros. apply expand_refs_guard. assumption.
  - intros. apply expand_refs_follow; assumption.
  - vm_compute. reflexivity.
Qed.

Lemma depth_guard_on_chain_witness :
  (MAX_DEPTH < 11 /\
   expand_refs JNull JNull "root" 11 [] =
     Some (placeholder ("Max expansion depth reached at " +++ "root"))) /\
  expand_refs (JObj [("$ref", JStr (schema_ref 1))]) (chain_doc 15) "root.schema" 0 [] =
    expand_refs (merge_siblings (chain_schema 15 1) [("$ref", JStr (schema_ref 1))])
      (chain_doc 15) ("root.schema" +++ "->" +++ py_str (JStr (schema_ref 1))) 1
      (set_add (tracking_key "root.schema" (JStr (schema_ref 1))) []).
Proof.
  split; [split; [unfold MAX_DEPTH; lia|] |].
  - apply (proj1 depth_guard_on_chain). unfold MAX_DEPTH; lia.
  - apply (proj1 (proj2 depth_guard_on_chain) [("$ref", JStr (schema_ref 1))]
             (JStr (schema_ref 1)) (chain_schema 15 1) (chain_doc 15) "root.schema" 0 []).
    + unfold MAX_DEPTH; lia.
    + reflexivity.
    + vm_compute. reflexivity.
    + vm_compute. reflexivity.
Defined.

(** C5: a reference with siblings whose target is a dict expands as the
    target overlaid with the siblings (a sibling wins on a shared key),
    one level deeper; on the [Pet] example the result is
    [{"type": "object", "description": "override"}]. *)
Theorem sibling_override_merge :
  (forall kvs ref_path rkvs root_doc path depth visited_paths,
     depth <= MAX_DEPTH ->
     dict_get "$ref" kvs = Some ref_path ->
     mem (tracking_key path ref_path) visited_paths = false ->
     resolve_ref_pointer ref_path root_doc = inl (JObj rkvs) ->
     other_props kvs <> [] ->
     expand_refs (JObj kvs) root_doc path depth visited_paths =
       expand_refs (JObj (dict_merge rkvs (other_props kvs))) root_doc
         (path +++ "->" +++ py_str ref_path) (S depth)
         (set_add (tracking_key path ref_path) visited_paths)) /\
  (forall k (rkvs props : list (string * json)),
     dict_get k (dict_merge rkvs props) =
       match dict_get k (rev props) with
       | Some v => Some v
       | None => dict_get k rkvs
       end) /\
  match expand_doc pet_doc with
  | Some out => get "pet" out
  | None => None
  end = Some (JObj [("type", JStr "object"); ("description", JStr "override")]).
Proof.
  split; [|split].
  - intros kvs ref_path rkvs root_doc path depth visited_paths Hd Hget Hmem Hres Hprops.
    rewrite (expand_refs_follow kvs ref_path (JObj rkvs) root_doc path depth visited_paths
               Hd Hget Hmem Hres).
    unfold merge_siblings. destruct (other_props kvs); [congruence | reflexivity].
  - intros. apply dict_get_merge.
  - vm_compute. reflexivity.
Qed.

Lemma sibling_override_merge_witness :
  expand_refs (JObj [("$ref", JStr "#/components/schemas/Pet"); ("description", JStr "override")])
    pet_doc "root.pet" 0 [] =
  expand_refs
    (JObj (dict_merge [("type", JStr "object"); ("description", JStr "original")]
             (other_props [("$ref", JStr "#/components/schemas/Pet");
                           ("description", JStr "override")])))
    pet_doc ("root.pet" +++ "->" +++ py_str (JStr "#/components/schemas/Pet")) 1
    (set_add (tracking_key "root.pet" (JStr "#/components/schemas/Pet")) []).
Proof.
  apply (proj1 sibling_override_merge
           [("$ref", JStr "#/components/schemas/Pet"); ("description", JStr "override")]
           (JStr "#/components/schemas/Pet")
           [("type", JStr "object"); ("description", JStr "original")] pet_doc
           "root.pet" 0 []).
  - unfold MAX_DEPTH; lia.
  - reflexivity.
  - vm_compute. reflexivity.
  - vm_compute. reflexivity.
  - discriminate.
Defined.

(** C6: every failure of [resolve_ref_pointer] (a pointer not starting
    with ["#/"], a ["$ref"] value that is not a string, a missing dict key,
    a list segment that is not an integer or is out of range, a step into a
    scalar) is an exception that the [try] of [expand_refs] turns into the
    placeholder ["Error resolving <ref>: <message>"]; [expand_refs] itself
    always returns a tree, and the values of a dict are expanded each on
    its own.  On [pet_doc] the missing schema becomes an error placeholder
    while its sibling keys expand normally. *)
Theorem resolution_errors_localized :
  (forall kvs ref_path root_doc path depth visited_paths e,
     depth <= MAX_DEPTH ->
     dict_get "$ref" kvs = Some ref_path ->
     mem (tracking_key path ref_path) visited_paths = false ->
     resolve_ref_pointer ref_path root_doc = inr e ->
     expand_refs (JObj kvs) root_doc path depth visited_paths =
       Some (placeholder ("Error resolving " +++ py_str ref_path +++ ": " +++ exc_str e))) /\
  (forall s root_doc,
     (forall rest, s <> String "#" (String "/" rest)) ->
     resolve_ref_pointer (JStr s) root_doc =
       inr (ValueError ("External references not supported: " +++ s))) /\
  (forall ref root_doc,
     (forall s, ref <> JStr s) ->
     resolve_ref_pointer ref root_doc = inr (AttributeError (type_name ref) "startswith")) /\
  (forall ref_path part ps kvs,
     dict_get (unescape part) kvs = None ->
     walk ref_path (part :: ps) (JObj kvs) = inr (KeyError (unescape part))) /\
  (forall ref_path part ps xs,
     py_int (unescape part) = None ->
     walk ref_path (part :: ps) (JList xs) =
       inr (ValueError ("invalid literal for int() with base 10: " +++ str_repr (unescape part)))) /\
  (forall ref_path part ps xs i,
     py_int (unescape part) = Some i -> py_index xs i = None ->
     walk ref_path (part :: ps) (JList xs) = inr IndexError) /\
  (forall ref_path part ps current,
     (forall kvs, current <> JObj kvs) -> (forall xs, current <> JList xs) ->
     walk ref_path (part :: ps) current = inr (ValueError ("Cannot resolve path " +++ ref_path))) /\
  (forall obj root_doc path depth visited_paths,
     exists v, expand_refs obj root_doc path depth visited_paths = Some v) /\
  (forall kvs root_doc path depth visited_paths,
     depth <= MAX_DEPTH -> dict_get "$ref" kvs = None ->
     expand_refs (JObj kvs) root_doc path depth visited_paths =
       option_map JObj (map_kvs_opt (fun key value =>
         expand_refs value root_doc (path +++ "." +++ key) depth visited_paths) kvs)) /\
  expand_doc pet_doc =
    Some (JObj [("components", JObj [("schemas", JObj [
                   ("Pet", JObj [("type", JStr "object"); ("description", JStr "original")])])]);
                ("pet", JObj [("type", JStr "object"); ("description", JStr "override")]);
                ("missing", placeholder
                   "Error resolving #/components/schemas/DoesNotExist: 'DoesNotExist'");
                ("tags", JList [JStr "a";
                   JObj [("type", JStr "object"); ("description", JStr "original")]])]).
Proof.
  split; [exact expand_refs_error|].
  split.
  { intros s root_doc Hs. unfold resolve_ref_pointer.
    destruct s as [|c1 r]; [reflexivity|].
    destruct (Ascii.eqb_spec c1 "#") as [->|H1].
    - destruct r as [|c2 rest]; [reflexivity|].
      destruct (Ascii.eqb_spec c2 "/") as [->|H2]; [exfalso; exact (Hs rest eq_refl)|].
      destruct c2 as [[] [] [] [] [] [] [] []]; try reflexivity; exfalso; apply H2; reflexivity.
    - destruct c1 as [[] [] [] [] [] [] [] []]; try reflexivity; exfalso; apply H1; reflexivity. }
  split.
  { intros ref root_doc Hs. destruct ref; try reflexivity. exfalso. exact (Hs s eq_refl). }
  split.
  { intros ref_path part ps kvs H. simpl. rewrite H. reflexivity. }
  split.
  { intros ref_path part ps xs H. simpl. rewrite H. reflexivity. }
  split.
  { intros ref_path part ps xs i H1 H2. simpl. rewrite H1, H2. reflexivity. }
  split.
  { intros ref_path part ps current H1 H2. simpl.
    destruct current as [| | | |xs|kvs]; try reflexivity.
    - exfalso. exact (H2 xs eq_refl).
    - exfalso. exact (H1 kvs eq_refl). }
  split.
  { intros. destruct (expand_some_ref_free (S MAX_DEPTH - depth) obj root_doc path depth
                        visited_paths (le_n _)) as [v [Hv _]].
    exists v. exact Hv. }
  split.
  { intros kvs root_doc path depth visited_paths Hd Hget.
    unfold expand_refs. rewrite expand_eq.
    replace (MAX_DEPTH <? depth) with false by (symmetry; apply Nat.ltb_ge; exact Hd).
    rewrite Hget. reflexivity. }
  vm_compute. reflexivity.
Qed.

Lemma resolution_errors_localized_witness :
  expand_refs (JObj [("$ref", JStr "#/components/schemas/DoesNotExist")]) pet_doc
    "root.missing" 0 [] =
  Some (placeholder ("Error resolving " +++ py_str (JStr "#/components/schemas/DoesNotExist") +++
                     ": " +++ exc_str (KeyError "DoesNotExist"))).
Proof.
  apply (proj1 resolution_errors_localized).
  - unfold MAX_DEPTH; lia.
  - reflexivity.
  - vm_compute. reflexivity.
  - vm_compute. reflexivity.
Defined.

Lemma self_ref_call1_reachable :
  reachable self_ref_doc (mk_call self_ref_doc "root" 0 []) self_ref_call1.
Proof.
  unfold reachable, self_ref_doc.
  eapply rt1n_trans.
  { eapply (step_dict _ _ "components" _ "root" 0 []);
      [unfold MAX_DEPTH; lia | reflexivity | left; reflexivity]. }
  eapply rt1n_trans.
  { eapply (step_dict _ _ "schemas" _ ("root" +++ "." +++ "components") 0 []);
      [unfold MAX_DEPTH; lia | reflexivity | left; reflexivity]. }
  eapply rt1n_trans.
  { eapply (step_dict _ _ "A" _ (("root" +++ "." +++ "components") +++ "." +++ "schemas") 0 []);
      [unfold MAX_DEPTH; lia | reflexivity | left; reflexivity]. }
  eapply rt1n_trans.
  { eapply (step_ref _ _ _ 0 [] (JStr "#/components/schemas/A")
             (JObj [("$ref", JStr "#/components/schemas/A")]));
      [unfold MAX_DEPTH; lia | reflexivity | vm_compute; reflexivity
      | vm_compute; reflexivity]. }
  apply rt1n_refl.
Qed.

Lemma circular_branch_unreachable_witness :
  reachable self_ref_doc (mk_call self_ref_doc "root" 0 []) self_ref_call1 /\
  mem (tracking_key (c_path self_ref_call1) (JStr "#/components/schemas/A"))
      (c_visited self_ref_call1) = false.
Proof.
  split; [exact self_ref_call1_reachable|].
  apply (circular_branch_unreachable self_ref_doc self_ref_doc "root" 0 self_ref_call1
           [("$ref", JStr "#/components/schemas/A")]).
  - exact self_ref_call1_reachable.
  - reflexivity.
  - reflexivity.
Defined.

Lemma expand_refs_ref_free_identity_witness :
  ref_free (JObj [("a", JList [JNum 1; JStr "x"]); ("b", JObj [("c", JNull)])]) = true /\
  expand_refs (JObj [("a", JList [JNum 1; JStr "x"]); ("b", JObj [("c", JNull)])])
    (JObj [("a", JList [JNum 1; JStr "x"]); ("b", JObj [("c", JNull)])]) "root" 0 [] =
    Some (JObj [("a", JList [JNum 1; JStr "x"]); ("b", JObj [("c", JNull)])]).
Proof.
  split; [reflexivity|].
  apply expand_refs_ref_free_identity. reflexivity.
Defined.

Lemma expand_refs_terminates_witness :
  expand 20 pet_doc pet_doc "root" 0 [] = expand_refs pet_doc pet_doc "root" 0 [] /\
  expand_refs (JObj [("k", JStr "v")]) pet_doc "root" 3 [] =
    option_map JObj (map_kvs_opt (fun key value =>
      expand_refs value pet_doc ("root" +++ "." +++ key) 3 []) [("k", JStr "v")]) /\
  expand_refs (JList [JNum 1]) pet_doc "root" 3 [] =
    option_map JList (mapi_opt (fun i item =>
      expand_refs item pet_doc ("root" +++ "[" +++ nat_to_string i +++ "]") 3 []) 0 [JNum 1]).
Proof.
  split; [|split].
  - apply (proj1 (proj2 expand_refs_terminates)). unfold MAX_DEPTH; lia.
  - apply (proj1 (proj2 (proj2 expand_refs_terminates))); [unfold MAX_DEPTH; lia | reflexivity].
  - apply (proj2 (proj2 (proj2 expand_refs_terminates))). unfold MAX_DEPTH; lia.
Defined.

Lemma replace_tilde0_keep (t : string) :
  head_char t <> Some "0"%char ->
  replace2 "~" "0" "~" (String "~" t) = String "~" (replace2 "~" "0" "~" t).
Proof.
  intro H. destruct t as [|y r]; [reflexivity|].
  change (replace2 "~" "0" "~" (String "~" (String y r)))
    with (if Ascii.eqb y "0" then String "~" (replace2 "~" "0" "~" r)
          else String "~" (replace2 "~" "0" "~" (String y r))).
  destruct (Ascii.eqb_spec y "0") as [->|]; [exfalso; apply H; reflexivity | reflexivity].
Qed.

Lemma replace_tilde1_head (y : ascii) (r : string) :
  y <> "0"%char -> head_char (replace2 "~" "1" "/" (String y r)) <> Some "0"%char.
Proof.
  intro Hy. simpl. destruct (Ascii.eqb_spec y "~") as [->|Hne].
  - destruct r as [|z r']; simpl; [discriminate|].
    destruct (Ascii.eqb z "1"); simpl; discriminate.
  - simpl. intro H. injection H as ->. apply Hy. reflexivity.
Qed.

Lemma replace_other (a b c x : ascii) (r : string) :
  x <> a -> replace2 a b c (String x r) = String x (replace2 a b c r).
Proof.
  intro H. simpl. destruct (Ascii.eqb_spec x a) as [->|]; [congruence | reflexivity].
Qed.

Lemma unescape_rfc6901_len (n : nat) :
  forall s, String.length s <= n -> unescape s = rfc6901_unescape s.
Proof.
  unfold unescape. induction n as [|n IH]; intros s Hlen.
  { destruct s; [reflexivity | simpl in Hlen; lia]. }
  destruct s as [|x r]; [reflexivity|]. simpl in Hlen.
  destruct (Ascii.eqb_spec x "~") as [->|Hx].
  - destruct r as [|y r'].
    + reflexivity.
    + simpl in Hlen.
      destruct (Ascii.eqb_spec y "1") as [->|Hy1].
      * change (replace2 "~" "1" "/" (String "~" (String "1" r')))
          with (String "/" (replace2 "~" "1" "/" r')).
        rewrite replace_other by discriminate.
        change (rfc6901_unescape (String "~" (String "1" r')))
          with (String "/" (rfc6901_unescape r')).
        rewrite IH by lia. reflexivity.
      * destruct (Ascii.eqb_spec y "0") as [->|Hy0].
        -- change (replace2 "~" "1" "/" (String "~" (String "0" r')))
             with (String "~" (replace2 "~" "1" "/" (String "0" r'))).
           rewrite (replace_other "~" "1" "/" "0") by discriminate.
           change (replace2 "~" "0" "~" (String "~" (String "0" (replace2 "~" "1" "/" r'))))
             with (String "~" (replace2 "~" "0" "~" (replace2 "~" "1" "/" r'))).
           change (rfc6901_unescape (String "~" (String "0" r')))
             with (String "~" (rfc6901_unescape r')).
           rewrite IH by lia. reflexivity.
        -- assert (Hstep : replace2 "~" "1" "/" (String "~" (String y r')) =
                           String "~" (replace2 "~" "1" "/" (String y r'))).
           { simpl. destruct (Ascii.eqb_spec y "1"); [congruence | reflexivity]. }
           rewrite Hstep, replace_tilde0_keep by (apply replace_tilde1_head; exact Hy0).
           assert (Hdec : rfc6901_unescape (String "~" (String y r')) =
                          String "~" (rfc6901_unescape (String y r'))).
           { simpl. destruct (Ascii.eqb_spec y "0"); [congruence|].
             destruct (Ascii.eqb_spec y "1"); [congruence | reflexivity]. }
           rewrite Hdec, IH by (simpl; lia). reflexivity.
  - rewrite (replace_other "~" "1" "/" x) by exact Hx.
    rewrite (replace_other "~" "0" "~" x) by exact Hx.
    assert (Hdec : rfc6901_unescape (String x r) = String x (rfc6901_unescape r)).
    { simpl. destruct (Ascii.eqb_spec x "~"); [congruence | reflexivity]. }
    rewrite Hdec, IH by lia. reflexivity.
Qed.

(** C10: each segment is unescaped by [replace('~1', '/')] and then
    [replace('~0', '~')]; this is the decoding of RFC 6901 on every string,
    so ["~01"] addresses the key ["~1"] and ["~1"] the key ["/"]. *)
Theorem pointer_unescape_rfc6901 :
  (forall s, unescape s = replace2 "~" "0" "~" (replace2 "~" "1" "/" s)) /\
  (forall s, unescape s = rfc6901_unescape s) /\
  unescape "~01" = "~1" /\
  unescape "~1" = "/" /\
  resolve_ref_pointer (JStr "#/~01") (JObj [("/", JNum 1); ("~1", JNum 2)]) = inl (JNum 2) /\
  resolve_ref_pointer (JStr "#/~1") (JObj [("/", JNum 1); ("~1", JNum 2)]) = inl (JNum 1).
Proof.
  split; [reflexivity|].
  split; [intro s; exact (unescape_rfc6901_len (String.length s) s (le_n _))|].
  repeat split; vm_compute; reflexivity.
Qed.

(* ------------------------------------------------------------------ *)
(** ** Integer tokens of the pointer resolver *)

Lemma digit_not_space (c : ascii) : digit_value c <> None -> is_py_space c = false.
Proof.
  destruct c as [[] [] [] [] [] [] [] []]; vm_compute; intro H;
    solve [reflexivity | exfalso; apply H; reflexivity].
Qed.

Lemma drop_spaces_digits (l : list ascii) :
  List.Forall (fun c => digit_value c <> None) l -> l <> [] -> drop_spaces l = l.
Proof.
  intros Hall Hne. destruct l as [|c r]; [congruence|].
  inversion Hall as [|? ? Hc _]; subst. simpl. rewrite (digit_not_space c Hc). reflexivity.
Qed.

Lemma uint_chars_digits (d : Decimal.uint) :
  List.Forall (fun c => digit_value c <> None) (list_ascii_of_string (uint_to_string d)).
Proof.
  induction d; simpl; constructor; try assumption; intro H; vm_compute in H; discriminate H.
Qed.

Lemma digits_us_uint (d : Decimal.uint) :
  forall acc, digits_us (list_ascii_of_string (uint_to_string d)) (Z.of_nat acc) false =
              Some (Z.of_nat (Nat.of_uint_acc d acc)).
Proof.
  induction d; intro acc; [reflexivity|..]; simpl Nat.of_uint_acc; rewrite <- IHd;
    simpl; f_equal; rewrite Nat.tail_mul_spec; lia.
Qed.

Lemma py_int_uint (d : Decimal.uint) :
  d <> Decimal.Nil -> py_int (uint_to_string d) = Some (Z.of_nat (Nat.of_uint d)).
Proof.
  intro Hd. unfold py_int.
  pose proof (uint_chars_digits d) as Hall.
  assert (Hne : list_ascii_of_string (uint_to_string d) <> []) by (destruct d; simpl; congruence).
  rewrite (drop_spaces_digits _ Hall Hne).
  rewrite (drop_spaces_digits (rev _) (List.Forall_rev Hall)).
  2:{ intro E. apply Hne. apply (f_equal (@rev _)) in E. rewrite rev_involutive in E. exact E. }
  rewrite rev_involutive. unfold Nat.of_uint. rewrite <- (digits_us_uint d 0).
  destruct d; [congruence|..]; reflexivity.
Qed.

Lemma to_uint_not_nil (n : nat) : Nat.to_uint n <> Decimal.Nil.
Proof.
  intro E. pose proof (DecimalNat.Unsigned.of_to n) as H. rewrite E in H. simpl in H. subst n.
  vm_compute in E. discriminate E.
Qed.

Lemma py_int_nat (n : nat) : py_int (nat_to_string n) = Some (Z.of_nat n).
Proof.
  unfold nat_to_string. rewrite (py_int_uint _ (to_uint_not_nil n)).
  rewrite DecimalNat.Unsigned.of_to. reflexivity.
Qed.

(** ** Pointers *)

Lemma rfc6901_unescape_escape (k : string) : rfc6901_unescape (escape_token k) = k.
Proof.
  induction k as [|c r IH]; [reflexivity|]. simpl.
  destruct (Ascii.eqb c "~") eqn:E1; [apply Ascii.eqb_eq in E1; subst c; simpl; rewrite IH; reflexivity|].
  destruct (Ascii.eqb c "/") eqn:E2; [apply Ascii.eqb_eq in E2; subst c; simpl; rewrite IH; reflexivity|].
  simpl. rewrite E1, IH. reflexivity.
Qed.

Lemma unescape_escape (k : string) : unescape (escape_token k) = k.
Proof.
  rewrite (unescape_rfc6901_len (String.length (escape_token k)) _ (le_n _)).
  apply rfc6901_unescape_escape.
Qed.

Lemma rfc6901_unescape_no_tilde (s : string) :
  ~ In "~"%char (list_ascii_of_string s) -> rfc6901_unescape s = s.
Proof.
  induction s as [|c r IH]; intro H; [reflexivity|]. simpl in *.
  destruct (Ascii.eqb c "~") eqn:E; [apply Ascii.eqb_eq in E; subst c; tauto|].
  rewrite IH by tauto. reflexivity.
Qed.

Lemma unescape_no_tilde (s : string) :
  ~ In "~"%char (list_ascii_of_string s) -> unescape s = s.
Proof.
  intro H. rewrite (unescape_rfc6901_len (String.length s) _ (le_n _)).
  exact (rfc6901_unescape_no_tilde s H).
Qed.

Lemma escape_no_slash (k : string) : ~ In "/"%char (list_ascii_of_string (escape_token k)).
Proof.
  induction k as [|c r IH]; simpl; [tauto|].
  destruct (Ascii.eqb c "~") eqn:E1; [simpl; intros [H|[H|H]]; [discriminate|discriminate|tauto]|].
  destruct (Ascii.eqb c "/") eqn:E2; [simpl; intros [H|[H|H]]; [discriminate|discriminate|tauto]|].
  simpl. intros [H|H]; [subst c; discriminate E2|tauto].
Qed.

Lemma digits_not_in (c : ascii) (l : list ascii) :
  digit_value c = None ->
  List.Forall (fun c' => digit_value c' <> None) l -> ~ In c l.
Proof.
  intros Hc Hall Hin. rewrite List.Forall_forall in Hall. apply (Hall c Hin). exact Hc.
Qed.

Lemma nat_to_string_chars (n : nat) :
  List.Forall (fun c => digit_value c <> None) (list_ascii_of_string (nat_to_string n)).
Proof. apply uint_chars_digits. Qed.

Lemma seg_token_no_slash (s : seg) : ~ In "/"%char (list_ascii_of_string (seg_token s)).
Proof.
  destruct s as [k|i]; simpl; [apply escape_no_slash|].
  apply digits_not_in; [reflexivity|apply nat_to_string_chars].
Qed.

Lemma split_on_no_sep (c : ascii) (a : string) :
  ~ In c (list_ascii_of_string a) -> split_on c a = [a].
Proof.
  induction a as [|x r IH]; intro H; [reflexivity|]. simpl in *.
  rewrite IH by tauto.
  destruct (Ascii.eqb x c) eqn:E; [apply Ascii.eqb_eq in E; subst x; tauto|reflexivity].
Qed.

Lemma split_on_app (c : ascii) (a b : string) :
  ~ In c (list_ascii_of_string a) -> split_on c (a +++ String c b) = a :: split_on c b.
Proof.
  induction a as [|x r IH]; intro H; simpl.
  - rewrite Ascii.eqb_refl. reflexivity.
  - simpl in H. rewrite IH by tauto.
    destruct (Ascii.eqb x c) eqn:E; [apply Ascii.eqb_eq in E; subst x; tauto|reflexivity].
Qed.

Lemma split_on_join (c : ascii) (toks : list string) :
  toks <> [] -> List.Forall (fun t => ~ In c (list_ascii_of_string t)) toks ->
  split_on c (join (String c EmptyString) toks) = toks.
Proof.
  induction toks as [|t r IH]; intros Hne Hall; [congruence|].
  inversion Hall as [|? ? Ht Hr]; subst.
  destruct r as [|t' r'].
  - simpl. apply split_on_no_sep. exact Ht.
  - change (join (String c EmptyString) (t :: t' :: r'))
      with (t +++ String c (join (String c EmptyString) (t' :: r'))).
    rewrite split_on_app by exact Ht. rewrite IH by (congruence || exact Hr). reflexivity.
Qed.

Lemma py_index_nat {A} (xs : list A) (i : nat) (x : A) :
  nth_error xs i = Some x -> py_index xs (Z.of_nat i) = Some x.
Proof.
  intro H. pose proof (nth_error_Some xs i) as [H1 _].
  assert (i < length xs)%nat by (apply H1; congruence).
  unfold py_index. replace ((0 <=? Z.of_nat i) && (Z.of_nat i <? Z.of_nat (length xs)))%Z with true
    by (symmetry; apply andb_true_iff; split; [apply Z.leb_le | apply Z.ltb_lt]; lia).
  rewrite Nat2Z.id. exact H.
Qed.

Lemma walk_segs_app (ref_path : string) (segs : list seg) (rest : list string) :
  forall D v, lookup_segs segs D = Some v ->
  walk ref_path (map seg_token segs ++ rest) D = walk ref_path rest v.
Proof.
  induction segs as [|[k|i] segs IH]; intros D v H; simpl in *.
  - injection H as <-. reflexivity.
  - destruct D as [| | | | |kvs]; try discriminate.
    rewrite unescape_escape. destruct (dict_get k kvs) as [w|] eqn:E; [|discriminate].
    apply IH. exact H.
  - destruct D as [| | | |xs|]; try discriminate.
    rewrite unescape_no_tilde by (apply digits_not_in; [reflexivity|apply nat_to_string_chars]).
    rewrite py_int_nat.
    destruct (nth_error xs i) as [w|] eqn:E; [|discriminate].
    rewrite (py_index_nat xs i w E). apply IH. exact H.
Qed.

Lemma resolve_local (rest : string) (D : json) :
  resolve_ref_pointer (JStr ("#/" +++ rest)) D = walk ("#/" +++ rest) (split_on "/" rest) D.
Proof. reflexivity. Qed.

(** Property X1: a local reference written from a non-empty path of keys
    and list positions, each key encoded as RFC 6901 says (['~'] as [~0],
    ['/'] as [~1]) and each position in decimal, resolves to the value at
    that path. *)
Theorem resolve_pointer_of_roundtrip (segs : list seg) (D v : json) :
  segs <> [] -> lookup_segs segs D = Some v ->
  resolve_ref_pointer (JStr (pointer_of segs)) D = inl v.
Proof.
  intros Hne H. unfold pointer_of. rewrite resolve_local.
  rewrite split_on_join.
  - rewrite <- (app_nil_r (map seg_token segs)). rewrite (walk_segs_app _ segs [] D v H). reflexivity.
  - destruct segs; simpl; congruence.
  - apply List.Forall_forall. intros t Ht. apply in_map_iff in Ht as [s [<- _]].
    apply seg_token_no_slash.
Qed.

Lemma resolve_pointer_of_roundtrip_witness :
  lookup_segs [SKey "a/b~c"; SIdx 2] (JObj [("a/b~c", JList [JNull; JNull; JNum 7])]) = Some (JNum 7) /\
  resolve_ref_pointer (JStr (pointer_of [SKey "a/b~c"; SIdx 2]))
    (JObj [("a/b~c", JList [JNull; JNull; JNum 7])]) = inl (JNum 7).
Proof.
  split; [reflexivity|].
  apply resolve_pointer_of_roundtrip; [discriminate|reflexivity].
Defined.

Lemma drop_spaces_keep (c : ascii) (r : list ascii) :
  is_py_space c = false -> drop_spaces (c :: r) = c :: r.
Proof. intro H. simpl. rewrite H. reflexivity. Qed.

Lemma unsigned_int_uint (d : Decimal.uint) :
  d <> Decimal.Nil ->
  unsigned_int (list_ascii_of_string (uint_to_string d)) = Some (Z.of_nat (Nat.of_uint d)).
Proof.
  intro Hd. unfold Nat.of_uint. rewrite <- (digits_us_uint d 0).
  destruct d; [congruence|..]; reflexivity.
Qed.

Lemma nat_to_string_ne (n : nat) : list_ascii_of_string (nat_to_string n) <> [].
Proof.
  unfold nat_to_string. destruct (Nat.to_uint n) eqn:E;
    [exfalso; exact (to_uint_not_nil n E)|..]; simpl; congruence.
Qed.

Lemma py_int_neg_nat (k : nat) : py_int ("-" +++ nat_to_string k) = Some (- Z.of_nat k)%Z.
Proof.
  unfold py_int.
  change (list_ascii_of_string ("-" +++ nat_to_string k))
    with ("-"%char :: list_ascii_of_string (nat_to_string k)).
  rewrite drop_spaces_keep by reflexivity.
  pose proof (nat_to_string_chars k) as Hall. pose proof (nat_to_string_ne k) as Hne.
  set (l := list_ascii_of_string (nat_to_string k)) in *.
  simpl rev. pose proof (List.Forall_rev Hall) as Hrev.
  destruct (rev l) as [|c r] eqn:Er.
  - exfalso. apply Hne. rewrite <- (rev_involutive l), Er. reflexivity.
  - inversion Hrev as [|? ? Hc _]; subst.
    change ((c :: r) ++ ["-"%char]) with (c :: (r ++ ["-"%char])).
    rewrite drop_spaces_keep by (apply digit_not_space; exact Hc).
    change (c :: (r ++ ["-"%char])) with ((c :: r) ++ ["-"%char]).
    rewrite <- Er, rev_app_distr, rev_involutive. simpl.
    subst l. unfold nat_to_string. rewrite (unsigned_int_uint _ (to_uint_not_nil k)).
    rewrite DecimalNat.Unsigned.of_to. reflexivity.
Qed.

Lemma neg_token_chars (k : nat) :
  ~ In "/"%char (list_ascii_of_string ("-" +++ nat_to_string k)) /\
  ~ In "~"%char (list_ascii_of_string ("-" +++ nat_to_string k)).
Proof.
  change (list_ascii_of_string ("-" +++ nat_to_string k))
    with ("-"%char :: list_ascii_of_string (nat_to_string k)).
  split; intros [H|H]; try discriminate H; revert H;
    apply digits_not_in; try reflexivity; apply nat_to_string_chars.
Qed.

(** Property X2: a token [-k] applied to a list of length at least [k]
    selects its [k]-th element from the end (Python's negative indexing of
    line 28), where RFC 6901 has no such token. *)
Theorem resolve_negative_index (segs : list seg) (D : json) (xs : list json) (k : nat) (x : json) :
  lookup_segs segs D = Some (JList xs) ->
  1 <= k <= length xs ->
  nth_error xs (length xs - k) = Some x ->
  resolve_ref_pointer
    (JStr ("#/" +++ join "/" (map seg_token segs ++ ["-" +++ nat_to_string k]))) D = inl x.
Proof.
  intros Hl Hk Hx. rewrite resolve_local. destruct (neg_token_chars k) as [Hs Ht].
  rewrite split_on_join.
  - rewrite (walk_segs_app _ segs _ D (JList xs) Hl). simpl.
    rewrite (unescape_no_tilde _ Ht), py_int_neg_nat. unfold py_index.
    replace ((0 <=? - Z.of_nat k) && (- Z.of_nat k <? Z.of_nat (length xs)))%Z with false
      by (symmetry; apply andb_false_iff; left; apply Z.leb_gt; lia).
    replace ((- Z.of_nat (length xs) <=? - Z.of_nat k) && (- Z.of_nat k <? 0))%Z with true
      by (symmetry; apply andb_true_iff; split; [apply Z.leb_le | apply Z.ltb_lt]; lia).
    replace (Z.to_nat (Z.of_nat (length xs) + - Z.of_nat k)) with (length xs - k)%nat by lia.
    rewrite Hx. reflexivity.
  - destruct (map seg_token segs); simpl; congruence.
  - apply List.Forall_app. split; [|constructor; [exact Hs|constructor]].
    apply List.Forall_forall. intros t Ht'. apply in_map_iff in Ht' as [s [<- _]].
    apply seg_token_no_slash.
Qed.

Lemma resolve_negative_index_witness :
  nth_error [JStr "a"; JStr "b"; JStr "c"] (3 - 1) = Some (JStr "c") /\
  resolve_ref_pointer
    (JStr ("#/" +++ join "/" (map seg_token [SKey "tags"] ++ ["-" +++ nat_to_string 1])))
    (JObj [("tags", JList [JStr "a"; JStr "b"; JStr "c"])]) = inl (JStr "c").
Proof.
  split; [reflexivity|].
  apply (resolve_negative_index [SKey "tags"] _ [JStr "a"; JStr "b"; JStr "c"] 1 (JStr "c"));
    [reflexivity|simpl; lia|reflexivity].
Defined.

(** ** Proper sub-values *)











(** ** Expander edge cases *)

Lemma merge_siblings_non_dict (t : json) (kvs : list (string * json)) :
  (forall rkvs, t <> JObj rkvs) -> merge_siblings t kvs = t.
Proof.
  intro Ht. unfold merge_siblings. destruct (other_props kvs); [reflexivity|].
  destruct t; try reflexivity. exfalso. eapply Ht. reflexivity.
Qed.

(** Property X4: when a reference resolves to a list or a scalar, its
    sibling keys are dropped: the node expands exactly as the bare
    reference [{"$ref": ref}] would. *)
Theorem expand_siblings_dropped_non_dict (kvs : list (string * json)) (ref_path t root_doc : json)
  (path : string) (depth : nat) (visited_paths : list string) :
  depth <= MAX_DEPTH ->
  dict_get "$ref" kvs = Some ref_path ->
  mem (tracking_key path ref_path) visited_paths = false ->
  resolve_ref_pointer ref_path root_doc = inl t ->
  (forall rkvs, t <> JObj rkvs) ->
  expand_refs (JObj kvs) root_doc path depth visited_paths =
    expand_refs (JObj [("$ref", ref_path)]) root_doc path depth visited_paths.
Proof.
  intros Hd Hget Hmem Hres Ht.
  rewrite (expand_refs_follow kvs ref_path t root_doc path depth visited_paths Hd Hget Hmem Hres).
  rewrite (expand_refs_follow [("$ref", ref_path)] ref_path t root_doc path depth visited_paths
             Hd eq_refl Hmem Hres).
  rewrite !merge_siblings_non_dict by exact Ht. reflexivity.
Qed.

Lemma expand_siblings_dropped_non_dict_witness :
  resolve_ref_pointer (JStr "#/items") (JObj [("items", JList [JNum 1])]) = inl (JList [JNum 1]) /\
  expand_refs (JObj [("$ref", JStr "#/items"); ("description", JStr "d")])
    (JObj [("items", JList [JNum 1])]) "root.r" 0 [] =
  expand_refs (JObj [("$ref", JStr "#/items")]) (JObj [("items", JList [JNum 1])]) "root.r" 0 [].
Proof.
  split; [reflexivity|].
  apply (expand_siblings_dropped_non_dict _ (JStr "#/items") (JList [JNum 1]));
    [unfold MAX_DEPTH; lia|reflexivity|reflexivity|reflexivity|intros rkvs H; discriminate H].
Defined.

(** Property X5: a ["$ref"] whose value is not a string is an error
    resolving it: [startswith] raises [AttributeError], and the node becomes
    the error placeholder naming the value's type. *)
Theorem expand_non_string_ref (kvs : list (string * json)) (ref_path root_doc : json)
  (path : string) (depth : nat) (visited_paths : list string) :
  depth <= MAX_DEPTH ->
  dict_get "$ref" kvs = Some ref_path ->
  (forall s, ref_path <> JStr s) ->
  mem (tracking_key path ref_path) visited_paths = false ->
  expand_refs (JObj kvs) root_doc path depth visited_paths =
    Some (placeholder ("Error resolving " +++ py_str ref_path +++ ": '" +++ type_name ref_path +++
                       "' object has no attribute 'startswith'")).
Proof.
  intros Hd Hget Hs Hmem.
  rewrite (expand_refs_error kvs ref_path root_doc path depth visited_paths
             (AttributeError (type_name ref_path) "startswith") Hd Hget Hmem).
  - reflexivity.
  - destruct ref_path; try reflexivity. exfalso. eapply Hs. reflexivity.
Qed.

Lemma expand_non_string_ref_witness :
  expand_refs (JObj [("$ref", JNum 5)]) JNull "root" 0 [] =
    Some (placeholder ("Error resolving " +++ py_str (JNum 5) +++ ": '" +++ type_name (JNum 5) +++
                       "' object has no attribute 'startswith'")).
Proof.
  apply expand_non_string_ref;
    [unfold MAX_DEPTH; lia|reflexivity|intros s H; discriminate H|reflexivity].
Defined.

(** ** remove_unused_components *)



Lemma filter_keys (c : string) (kvs : list (string * json)) :
  map fst (filter (fun kv => negb (String.eqb (fst kv) c)) kvs) =
  filter (fun k => negb (String.eqb k c)) (map fst kvs).
Proof.
  induction kvs as [|[k v] r IH]; [reflexivity|]. cbn [map]. rewrite !filter_cons. simpl.
  destruct (String.eqb k c); simpl; [exact IH|f_equal; exact IH].
Qed.

Lemma dict_get_filter (c k : string) (kvs : list (string * json)) :
  k <> c -> dict_get k (filter (fun kv => negb (String.eqb (fst kv) c)) kvs) = dict_get k kvs.
Proof.
  intro Hk. induction kvs as [|[k' v] r IH]; [reflexivity|]. rewrite filter_cons. simpl.
  destruct (String.eqb k' c) eqn:E; simpl.
  - apply String.eqb_eq in E. subst k'. rewrite IH.
    destruct (String.eqb c k) eqn:E'; [apply String.eqb_eq in E'; congruence|reflexivity].
  - rewrite IH. reflexivity.
Qed.

Lemma dict_has_filter (c : string) (kvs : list (string * json)) :
  dict_has c (filter (fun kv => negb (String.eqb (fst kv) c)) kvs) = false.
Proof.
  unfold dict_has. induction kvs as [|[k v] r IH]; [reflexivity|]. rewrite filter_cons. simpl.
  destruct (String.eqb k c) eqn:E; simpl; [exact IH|]. rewrite E. exact IH.
Qed.

Lemma filter_keys_absent (c : string) (kvs : list (string * json)) :
  dict_has c kvs = false -> filter (fun k => negb (String.eqb k c)) (map fst kvs) = map fst kvs.
Proof.
  unfold dict_has. induction kvs as [|[k v] r IH]; [reflexivity|]. simpl. rewrite filter_cons.
  intro H. apply orb_false_iff in H as [H1 H2]. rewrite H1. simpl. rewrite IH by exact H2.
  reflexivity.
Qed.

(** Property X6: on a dict, [remove_unused_components] removes the
    ['components'] key and nothing else: every other key keeps its value
    and the keys keep their order; a dict without the key is returned as
    it is. *)
Theorem remove_components_dict (kvs : list (string * json)) :
  exists kvs',
    remove_unused_components (JObj kvs) = inl (JObj kvs') /\
    dict_has "components" kvs' = false /\
    (forall k, k <> "components" -> dict_get k kvs' = dict_get k kvs) /\
    map fst kvs' = filter (fun k => negb (String.eqb k "components")) (map fst kvs) /\
    (dict_has "components" kvs = false -> kvs' = kvs).
Proof.
  unfold remove_unused_components. destruct (dict_has "components" kvs) eqn:E.
  - eexists. split; [reflexivity|]. split; [apply dict_has_filter|]. split.
    + intros k Hk. apply dict_get_filter. exact Hk.
    + split; [apply filter_keys|discriminate].
  - exists kvs. split; [reflexivity|]. split; [exact E|]. split; [reflexivity|].
    split; [symmetry; apply filter_keys_absent; exact E|reflexivity].
Qed.

Lemma remove_components_dict_witness :
  exists kvs',
    remove_unused_components (JObj [("openapi", JStr "3.0.0"); ("components", JObj [])]) =
      inl (JObj kvs') /\
    dict_has "components" kvs' = false /\
    (forall k, k <> "components" ->
     dict_get k kvs' = dict_get k [("openapi", JStr "3.0.0"); ("components", JObj [])]) /\
    map fst kvs' = filter (fun k => negb (String.eqb k "components")) ["openapi"; "components"] /\
    (dict_has "components" [("openapi", JStr "3.0.0"); ("components", JObj [])] = false ->
     kvs' = [("openapi", JStr "3.0.0"); ("components", JObj [])]).
Proof. exact (remove_components_dict _). Defined.




(** ** process_file *)

Lemma map_kvs_opt_keys (f : string -> json -> option json) (l l' : list (string * json)) :
  map_kvs_opt f l = Some l' -> map fst l' = map fst l.
Proof.
  revert l'. induction l as [|[k v] r IH]; intros l' H; simpl in H.
  - injection H as <-. reflexivity.
  - destruct (f k v) as [v'|]; [|discriminate H].
    destruct (map_kvs_opt f r) as [r'|] eqn:E; [|discriminate H].
    injection H as <-. simpl. f_equal. apply IH. reflexivity.
Qed.

Lemma ref_free_filter (c : string) (kvs : list (string * json)) :
  ref_free (JObj kvs) = true ->
  ref_free (JObj (filter (fun kv => negb (String.eqb (fst kv) c)) kvs)) = true.
Proof.
  simpl. unfold dict_has. induction kvs as [|[k v] r IH]; [reflexivity|].
  rewrite filter_cons. simpl. intro H.
  apply andb_true_iff in H as [H1 H2]. apply negb_true_iff, orb_false_iff in H1 as [H1a H1b].
  apply andb_true_iff in H2 as [H2a H2b].
  assert (IH' : negb (existsb (fun kv => String.eqb (fst kv) "$ref")
                        (filter (fun kv => negb (String.eqb (fst kv) c)) r)) &&
                forallb (fun kv => ref_free (snd kv))
                        (filter (fun kv => negb (String.eqb (fst kv) c)) r) = true)
    by (apply IH; rewrite H1b, H2b; reflexivity).
  destruct (String.eqb k c); simpl; [exact IH'|].
  rewrite H1a, H2a. exact IH'.
Qed.

(** Property X8: for a document whose top level is a dict without a
    ['$ref'] key, [process_file] saves a dict with no ['$ref'] anywhere and
    no ['components'] key, whose keys are the document's keys, in order,
    without ['components']. *)
Theorem process_doc_dict (kvs : list (string * json)) :
  dict_get "$ref" kvs = None ->
  exists kvs',
    process_doc (JObj kvs) = Some (inl (JObj kvs')) /\
    ref_free (JObj kvs') = true /\
    dict_has "components" kvs' = false /\
    map fst kvs' = filter (fun k => negb (String.eqb k "components")) (map fst kvs).
Proof.
  intro Href. unfold process_doc, expand_doc, expand_refs.
  destruct (expand_some_ref_free (S MAX_DEPTH - 0) (JObj kvs) (JObj kvs) "root" 0 [] (le_n _))
    as [v [Hv Hfree]].
  rewrite Hv. rewrite expand_eq in Hv. simpl in Hv. rewrite Href in Hv.
  destruct (map_kvs_opt _ kvs) as [l|] eqn:Em; [|discriminate Hv].
  injection Hv as <-. pose proof (map_kvs_opt_keys _ _ _ Em) as Hk.
  cbn [option_map]. unfold remove_unused_components. destruct (dict_has "components" l) eqn:E.
  - eexists. split; [reflexivity|]. split; [apply ref_free_filter; exact Hfree|].
    split; [apply dict_has_filter|]. rewrite filter_keys, Hk. reflexivity.
  - exists l. split; [reflexivity|]. split; [exact Hfree|]. split; [exact E|].
    rewrite <- Hk. symmetry. apply filter_keys_absent. exact E.
Qed.

Lemma process_doc_dict_witness :
  exists kvs',
    process_doc (JObj [("components", JObj [("schemas", JObj [("A", JObj [("type", JStr "string")])])]);
                       ("a", JObj [("$ref", JStr "#/components/schemas/A")])]) =
      Some (inl (JObj kvs')) /\
    ref_free (JObj kvs') = true /\
    dict_has "components" kvs' = false /\
    map fst kvs' = filter (fun k => negb (String.eqb k "components")) ["components"; "a"].
Proof. apply process_doc_dict. reflexivity. Defined.










(** ** str_representer *)

Lemma status_codes_quoted_check :
  forallb (fun n => match str_representer_style (nat_to_string n) with
                    | Some c => Ascii.eqb c "034"
                    | None => false
                    end) (seq 100 900) = true.
Proof. vm_compute. reflexivity. Qed.

(** Property X11: the YAML dumper double-quotes the empty string and the
    decimal form of every number from 100 to 999 (the HTTP status codes);
    it never forces quotes on another non-empty string whose length is not
    three. *)
Theorem str_representer_quotes (n : nat) (s : string) :
  str_representer_style "" = Some "034"%char /\
  (100 <= n <= 999 -> str_representer_style (nat_to_string n) = Some "034"%char) /\
  (s <> "" -> String.length s <> 3 -> str_representer_style s = None).
Proof.
  split; [reflexivity|split].
  - intro Hn. pose proof status_codes_quoted_check as H. rewrite forallb_forall in H.
    specialize (H n ltac:(apply in_seq; lia)).
    destruct (str_representer_style (nat_to_string n)) as [c|]; [|discriminate H].
    apply Ascii.eqb_eq in H. subst c. reflexivity.
  - intros Hne Hl. unfold str_representer_style.
    destruct (String.eqb s "") eqn:E; [apply String.eqb_eq in E; congruence|].
    destruct (String.length s =? 3) eqn:E3; [apply Nat.eqb_eq in E3; congruence|reflexivity].
Qed.

Lemma str_representer_quotes_witness :
  str_representer_style (nat_to_string 404) = Some "034"%char.
Proof. apply (proj1 (proj2 (str_representer_quotes 404 ""))). lia. Defined.

(* ------------------------------------------------------------------ *)
(** ** Frame of the expander over the object store *)

Module HeapFacts.
Import Heap.

Lemma preserved_refl (h : heap) : preserved h h.
Proof. intros l o H _. exact H. Qed.

Lemma preserved_trans (h1 h2 h3 : heap) :
  preserved h1 h2 -> preserved h2 h3 -> preserved h1 h3.
Proof. intros H12 H23 l o H Hs. apply H23; [apply H12|]; assumption. Qed.

Create HintDb frame.

Lemma frame_ret {A} (a : A) : frame (ret a).
Proof. intro h. apply preserved_refl. Qed.

Lemma frame_raise {A} (msg : string) : frame (A:=A) (raise msg).
Proof. intro h. apply preserved_refl. Qed.

Lemma frame_out_of_fuel {A} : frame (A:=A) out_of_fuel.
Proof. intro h. apply preserved_refl. Qed.

Lemma frame_bind {A B} (m : M A) (f : A -> M B) :
  frame m -> (forall a, frame (f a)) -> frame (bind m f).
Proof.
  intros Hm Hf h. unfold bind. specialize (Hm h).
  destruct (m h) as [[a|e|] h'] eqn:E; simpl in *;
    [eapply preserved_trans; [exact Hm | apply Hf] | exact Hm | exact Hm].
Qed.

Lemma frame_try_except {A} (m : M A) (handler : string -> M A) :
  frame m -> (forall e, frame (handler e)) -> frame (try_except m handler).
Proof.
  intros Hm Hh h. unfold try_except. specialize (Hm h).
  destruct (m h) as [[a|e|] h'] eqn:E; simpl in *;
    [exact Hm | eapply preserved_trans; [exact Hm | apply Hh] | exact Hm].
Qed.

Lemma frame_alloc (o : obj) : frame (alloc o).
Proof.
  intros h l o' H _. unfold alloc. simpl.
  rewrite lookup_insert_ne; [exact H|].
  intros <-. apply (is_fresh (dom h)). apply elem_of_dom. eauto.
Qed.

Lemma frame_load (l : loc) : frame (load l).
Proof. intro h. unfold load. destruct (h !! l); apply preserved_refl. Qed.

Lemma frame_set_add_h (l : loc) (k : string) : frame (set_add_h l k).
Proof.
  intro h. unfold set_add_h.
  destruct (h !! l) as [[kvs|xs|ks]|] eqn:E; try apply preserved_refl.
  intros l' o H Hs. simpl. destruct (decide (l = l')) as [<-|Hne].
  - rewrite E in H. injection H as <-. discriminate Hs.
  - rewrite lookup_insert_ne by exact Hne. exact H.
Qed.

Lemma frame_mapM {A B} (f : A -> M B) (l : list A) :
  (forall x, frame (f x)) -> frame (mapM f l).
Proof.
  intro Hf. induction l as [|x r IH]; simpl.
  - apply frame_ret.
  - apply frame_bind; [apply Hf|]. intro y.
    apply frame_bind; [exact IH|]. intro ys. apply frame_ret.
Qed.

Lemma frame_str_h (n : nat) (v : val) : frame (str_h n v).
Proof. intro h. unfold str_h. destruct (snapshot n h v); apply preserved_refl. Qed.

#[local] Hint Resolve frame_ret frame_raise frame_out_of_fuel frame_alloc frame_load
  frame_set_add_h frame_str_h : frame.

(** Splits a computation along its binds and branches. *)
Ltac frame_tac :=
  repeat match goal with
  | |- frame (bind _ _) => apply frame_bind; [|intros ?]
  | |- frame (try_except _ _) => apply frame_try_except; [|intros ?]
  | |- frame (mapM _ _) => apply frame_mapM; intros ?
  | |- frame (match ?x with _ => _ end) => destruct x
  | |- frame (if ?b then _ else _) => destruct b
  | |- frame (let _ := _ in _) => cbv zeta
  | |- _ => solve [eauto with frame]
  end.

Lemma frame_set_mem (l : loc) (k : string) : frame (set_mem l k).
Proof. unfold set_mem. frame_tac. Qed.

Lemma frame_set_copy (l : loc) : frame (set_copy l).
Proof. unfold set_copy. frame_tac. Qed.

Lemma frame_new_placeholder (d : string) : frame (new_placeholder d).
Proof. unfold new_placeholder. frame_tac. Qed.

Lemma frame_merge_h (resolved : val) (kvs : list (string * val)) : frame (merge_h resolved kvs).
Proof. unfold merge_h. frame_tac. Qed.

Lemma frame_deepcopy (fuel : nat) (v : val) : frame (deepcopy fuel v).
Proof.
  revert v. induction fuel as [|fuel IH]; intros [| | | |l]; simpl; frame_tac.
Qed.

Lemma frame_walk_h (ref_path : string) (parts : list string) (current : val) :
  frame (walk_h ref_path parts current).
Proof.
  revert current. induction parts as [|part ps IH]; intro current; simpl; frame_tac.
Qed.

Lemma frame_resolve_ref_pointer_h (ref root_doc : val) : frame (resolve_ref_pointer_h ref root_doc).
Proof.
  unfold resolve_ref_pointer_h. destruct ref as [| | |s|l]; frame_tac.
  destruct s as [|c1 [|c2 rest]]; frame_tac.
  all: try apply frame_walk_h.
Qed.

#[local] Hint Resolve frame_set_mem frame_set_copy frame_new_placeholder frame_merge_h
  frame_deepcopy frame_walk_h frame_resolve_ref_pointer_h : frame.

Lemma frame_expand_h (fuel : nat) (o root_doc : val) (path : string) (depth : nat)
  (visited : option loc) : frame (expand_h fuel o root_doc path depth visited).
Proof.
  revert o path depth visited. induction fuel as [|fuel IH]; intros o path depth visited;
    simpl; frame_tac.
Qed.

Lemma mapM_opt_mono {A B} (f g : A -> option B) (l : list A) (r : list B) :
  (forall x y, In x l -> f x = Some y -> g x = Some y) ->
  mapM_opt f l = Some r -> mapM_opt g l = Some r.
Proof.
  revert r. induction l as [|x l IH]; intros r Hfg H; simpl in *; [exact H|].
  destruct (f x) as [y|] eqn:Ef; [|discriminate].
  destruct (mapM_opt f l) as [ys|] eqn:El; [|discriminate].
  rewrite (Hfg x y (or_introl eq_refl) Ef).
  rewrite (IH ys (fun x' y' Hi => Hfg x' y' (or_intror Hi)) eq_refl). exact H.
Qed.

(** The document value at a location depends only on the dicts and lists
    it reaches. *)
Lemma snapshot_preserved (n : nat) (h h' : heap) (v : val) (j : json) :
  preserved h h' -> snapshot n h v = Some j -> snapshot n h' v = Some j.
Proof.
  intro Hp. revert v j. induction n as [|n IH]; intros v j H;
    destruct v as [| | | |l]; simpl in *; try exact H; try discriminate.
  destruct (h !! l) as [[kvs|xs|ks]|] eqn:E; try discriminate.
  - rewrite (Hp l (ODict kvs) E eq_refl).
    destruct (mapM_opt _ kvs) as [r|] eqn:Em; [|discriminate].
    erewrite mapM_opt_mono; [exact H| |exact Em].
    intros kv y _ Hy. cbv beta in Hy.
    destruct (snapshot n h (snd kv)) as [j'|] eqn:Es; simpl in Hy; [|discriminate Hy].
    rewrite (IH _ _ Es). exact Hy.
  - rewrite (Hp l (OList xs) E eq_refl).
    destruct (mapM_opt _ xs) as [r|] eqn:Em; [|discriminate].
    erewrite mapM_opt_mono; [exact H| |exact Em].
    intros x y _ Hy. exact (IH _ _ Hy).
Qed.

(** Claim C8: a call of [expand_refs] leaves every dict and list that
    exists before it unchanged (its only write to an existing object is
    the [add] to a visited set); so the root document, and any document
    value in the store, denotes the same tree after the call as before. *)
Theorem expand_h_root_unchanged (fuel : nat) (o root_doc : val) (path : string) (depth : nat)
  (visited : option loc) (h : heap) :
  preserved h (snd (expand_h fuel o root_doc path depth visited h)) /\
  (forall n j, snapshot n h root_doc = Some j ->
   snapshot n (snd (expand_h fuel o root_doc path depth visited h)) root_doc = Some j).
Proof.
  pose proof (frame_expand_h fuel o root_doc path depth visited h) as Hp.
  split; [exact Hp|]. intros n j H. exact (snapshot_preserved n _ _ root_doc j Hp H).
Qed.

(** On [pet_doc]: the expansion from the root, which dereferences
    ["#/components/schemas/Pet"] twice and overlays a sibling, leaves the
    root denoting [pet_doc]. *)
Lemma expand_h_root_unchanged_witness :
  snapshot 100 pet_store pet_root = Some pet_doc /\
  snapshot 100 (snd (expand_h 100 pet_root pet_root "root" 0 None pet_store)) pet_root
    = Some pet_doc.
Proof.
  split.
  - vm_compute. reflexivity.
  - apply (proj2 (expand_h_root_unchanged 100 pet_root pet_root "root" 0 None pet_store)).
    vm_compute. reflexivity.
Defined.

(** *** What [process_file] deletes *)

#[local] Hint Resolve frame_expand_h : frame.

Lemma bind_inv {A B} (m : M A) (f : A -> M B) (h : heap) (b : B) (h' : heap) :
  bind m f h = (Ok b, h') -> exists a h1, m h = (Ok a, h1) /\ f a h1 = (Ok b, h').
Proof.
  unfold bind. destruct (m h) as [[a|e|] h1]; intro H; [eauto|discriminate H|discriminate H].
Qed.

Lemma try_except_inv {A} (m : M A) (handler : string -> M A) (h : heap) (a : A) (h' : heap) :
  try_except m handler h = (Ok a, h') ->
  m h = (Ok a, h') \/ exists e h1, m h = (Exn e, h1) /\ handler e h1 = (Ok a, h').
Proof.
  unfold try_except. destruct (m h) as [[x|e|] h1]; intro H; [left; exact H|right; eauto|discriminate H].
Qed.

Lemma preserved_of {A} (m : M A) (h : heap) (r : outcome A) (h1 : heap) :
  m h = (r, h1) -> frame m -> preserved h h1.
Proof. intros Hm Hf. pose proof (Hf h) as Hp. rewrite Hm in Hp. exact Hp. Qed.

Lemma not_doc_fresh (h : heap) (l : loc) :
  h !! l = None -> forall o, h !! l = Some o -> is_set o = true.
Proof. intros H o Ho. congruence. Qed.

Lemma not_doc_back (h h1 : heap) (l : loc) :
  preserved h h1 ->
  (forall o, h1 !! l = Some o -> is_set o = true) ->
  forall o, h !! l = Some o -> is_set o = true.
Proof.
  intros Hp H1 o Ho. destruct (is_set o) eqn:E; [reflexivity|].
  rewrite <- E. apply H1. apply Hp; assumption.
Qed.

Lemma alloc_ret_fresh (o : obj) (h : heap) (l : loc) (h' : heap) :
  bind (alloc o) (fun l' => ret (VPtr l')) h = (Ok (VPtr l), h') -> h !! l = None.
Proof.
  unfold bind, alloc, ret. simpl. intro H. injection H as <- _.
  apply not_elem_of_dom. apply is_fresh.
Qed.

(** Follows a bind whose first computation writes no dict or list. *)
Ltac not_doc_step H a Hm :=
  let h1 := fresh "h" in
  apply bind_inv in H as [a [h1 [Hm H]]];
  apply (not_doc_back _ h1 _); [eapply (preserved_of _ _ _ _ Hm); frame_tac|].

(** The value [expand_refs] returns is never a dict or list that existed
    before the call. *)
Lemma expand_h_result_not_doc (fuel : nat) :
  forall o root_doc path depth visited h l h',
  expand_h fuel o root_doc path depth visited h = (Ok (VPtr l), h') ->
  forall ob, h !! l = Some ob -> is_set ob = true.
Proof.
  induction fuel as [|fuel IH]; intros o root_doc path depth visited h l h' H;
    [discriminate H|].
  cbn [expand_h] in H. not_doc_step H vis Hvis.
  destruct (MAX_DEPTH <? depth).
  { apply not_doc_fresh. exact (alloc_ret_fresh _ _ _ _ H). }
  destruct o as [| | | |l0]; try (cbv [ret] in H; congruence).
  not_doc_step H ob Hload. destruct ob as [kvs|xs|ks].
  - destruct (dict_get "$ref" kvs) as [ref_path|].
    + not_doc_step H rs Hrs. cbv zeta in H. not_doc_step H seen Hseen. destruct seen.
      { apply not_doc_fresh. exact (alloc_ret_fresh _ _ _ _ H). }
      not_doc_step H u Hu. apply try_except_inv in H as [H|[e [h5 [Hm H]]]].
      * not_doc_step H resolved Hres. not_doc_step H resolved' Hcopy.
        not_doc_step H merged Hmerge. not_doc_step H vis' Hvis'.
        exact (IH _ _ _ _ _ _ _ _ H).
      * apply (not_doc_back _ h5 _); [eapply (preserved_of _ _ _ _ Hm); frame_tac|].
        apply not_doc_fresh. exact (alloc_ret_fresh _ _ _ _ H).
    + not_doc_step H kvs' Hkvs. apply not_doc_fresh. exact (alloc_ret_fresh _ _ _ _ H).
  - not_doc_step H xs' Hxs. apply not_doc_fresh. exact (alloc_ret_fresh _ _ _ _ H).
  - cbv [ret] in H. injection H as <- <-. unfold load in Hload.
    destruct (_ !! l0) as [o0|] eqn:E; [injection Hload as -> <-|discriminate Hload].
    intros ob Hob. rewrite E in Hob. injection Hob as <-. reflexivity.
Qed.

Lemma remove_h_preserved (v : val) (h h1 : heap) :
  preserved h h1 ->
  (forall l, v = VPtr l -> forall o, h !! l = Some o -> is_set o = true) ->
  preserved h (snd (remove_h v h1)).
Proof.
  intros Hp Hv. destruct v as [| | |s|l]; simpl; try exact Hp.
  - destruct (str_contains "components" s); exact Hp.
  - unfold bind, load. destruct (h1 !! l) as [[kvs|xs|ks]|] eqn:E; simpl; try exact Hp.
    + destruct (dict_has "components" kvs); simpl; [|exact Hp].
      intros l' o Ho Hs. destruct (decide (l = l')) as [<-|Hne].
      * specialize (Hv l eq_refl o Ho). congruence.
      * rewrite lookup_insert_ne by exact Hne. apply Hp; assumption.
    + destruct (existsb _ xs); exact Hp.
    + destruct (existsb _ ks); exact Hp.
Qed.

(** Property X12: in [process_file], the [del] of [remove_unused_components]
    writes only the expanded tree: the loaded document, and every document
    value of the store before the call, reads the same afterwards. *)
Theorem process_h_keeps_loaded_doc (fuel : nat) (doc : val) (h : heap) (n : nat) (D : json) :
  snapshot n h doc = Some D ->
  snapshot n (snd (process_h fuel doc h)) doc = Some D.
Proof.
  intro HD. apply (snapshot_preserved n h); [|exact HD].
  unfold process_h, bind.
  pose proof (frame_expand_h fuel doc doc "root" 0 None h) as Hp.
  destruct (expand_h fuel doc doc "root" 0 None h) as [[v|e|] h1] eqn:E; simpl in *; try exact Hp.
  apply remove_h_preserved; [exact Hp|].
  intros l -> o Ho. exact (expand_h_result_not_doc _ _ _ _ _ _ _ _ _ E o Ho).
Qed.

Lemma process_h_keeps_loaded_doc_witness :
  snapshot 100 pet_store pet_root = Some pet_doc /\
  snapshot 100 (snd (process_h 100 pet_root pet_store)) pet_root = Some pet_doc.
Proof.
  split.
  - vm_compute. reflexivity.
  - apply (process_h_keeps_loaded_doc 100 pet_root pet_store 100 pet_doc).
    vm_compute. reflexivity.
Defined.

End HeapFacts.
